(** * filewatch: the filter / follower / state manager (filters.go)

    A shallow embedding of [FilterManager] and of the operations that
    mutate its three tables: the filter registry, the follower table and the
    offset (state) map.

    Modelling choices.
    - [map[FileName]*follower] and [map[FileName]*int64] are finite maps from
      tracking keys to addresses; follower objects and offset cells live in
      two stores, so that a cell shared by a follower and the state map is
      one cell.
    - A [range] over a Go map visits the keys in an unspecified order.  Every
      function that ranges over a map takes the visiting order as a list of
      keys and looks each key up in the current map, which is what the
      runtime does for entries deleted during the loop.
    - The file system, the follower implementation and the durable-store
      handle are collaborators: they are read through an environment [Env].
    - A run-time panic is an outcome of its own.
    - [initStateFile] and [NewFilterManager] read the state file through a
      second environment, [StoreEnv]. *)

From stdpp Require Import base option list strings gmap fin_maps.
From Stdlib Require Import Ascii ZArith Lia.

Local Open Scope Z_scope.
Local Open Scope string_scope.
Local Open Scope list_scope.

#[local] Set Warnings "-clear-no-such-hyp".

(** ** Data model *)

(** A Go [error] is its message; nil is [None] where an error may be absent. *)
Definition error := string.

(** Modelled from the spec: the handler (declared outside filters.go) is an
    opaque reference handed from a filter to its followers. *)
Definition handler := nat.

(** An open [os.File]. *)
Definition handle := nat.

(** Modelled from the spec: the platform file identity ([FileId], declared
    outside filters.go) is an opaque value that is only compared. *)
Definition FileId := nat.

(** A unique name that allows multiple IDs pointing at the same file. *)
Record FileName := mkFileName { BaseName : string; FilePath : string }.

Global Instance FileName_eq_dec : EqDecision FileName.
Proof. solve_decision. Defined.

Global Instance FileName_countable : Countable FileName.
Proof.
  refine (inj_countable' (fun k => (BaseName k, FilePath k))
                         (fun p => mkFileName p.1 p.2) _).
  by intros [].
Defined.

Record filter := mkFilter {
  bname : string;        (* name given to the config file *)
  loc : string;          (* location we are watching *)
  mtchs : list string;
  lh : handler
}.

Abbreviation fptr := nat (only parsing).             (* a pointer to a follower *)
Abbreviation cellptr := (option nat) (only parsing).  (* a pointer to an int64, None is nil *)

(** Modelled from the spec: the follower type is declared outside
    filters.go.  It embeds the [FileName] it tracks, records the file
    identity and the filter id in effect at creation time and references its
    offset cell. *)
Record follower := mkFollower {
  fileName : FileName;
  fileId : FileId;
  filterId : Z;
  state : cellptr
}.

(** Calls made on the collaborators, in the order they happen. *)
Inductive event :=
| EvNew (p : fptr)
| EvStart (p : fptr)
| EvClose (p : fptr)
| EvSeek (h : handle)
| EvTruncate (h : handle)
| EvEncode (h : handle) (snapshot : list (FileName * option Z))
| EvFileClose (h : option handle).

(** The manager together with the store its pointers point into.  The first
    five fields are the fields of the Go struct (the mutex is left out: every
    public operation holds it for its whole duration). *)
Record FilterManager := mkFM {
  filters : list filter;
  followers : option (gmap FileName fptr);   (* None is the nil map *)
  states : gmap FileName cellptr;
  stateFile : string;
  stateFout : option handle;                 (* None is the nil handle *)
  objs : gmap fptr follower;                 (* follower objects *)
  cells : gmap nat Z;                        (* offset cells *)
  next : nat;                                (* next free address *)
  trace : list event
}.

Inductive outcome (A : Type) :=
| Ret (a : A) (s : FilterManager)
| Panic (msg : string).
Arguments Ret {A} a s.
Arguments Panic {A} msg.

Inductive StatResult :=
| StatOk (size : Z)
| StatNotExist
| StatErr (e : error).

Global Instance StatResult_eq_dec : EqDecision StatResult.
Proof. unfold error. solve_decision. Defined.

(** One call of the walk function of [filepath.Walk]: the path, and whether
    [lerr == nil && fi != nil && fi.Mode().IsRegular()]. *)
Record WalkEntry := mkWalkEntry { wpath : string; wregular : bool }.

(** The collaborators of filters.go. *)
Record Env := mkEnv {
  Base : string -> string;                         (* filepath.Base *)
  Dir : string -> string;                          (* filepath.Dir *)
  Clean : string -> string;                        (* filepath.Clean *)
  Match : string -> string -> option bool;         (* filepath.Match, None is ErrBadPattern *)
  Walk : string -> list WalkEntry;                 (* filepath.Walk, in walk order *)
  Stat : string -> StatResult;                     (* os.Stat *)
  getFileIdFromName : string -> error + FileId;
  New_err : FileName -> option error;              (* NewFollower fails *)
  Start_err : FileName -> option error;            (* follower.Start fails *)
  Close_err : fptr -> option error;                (* follower.Close fails *)
  Seek_res : handle -> error + Z;                  (* File.Seek(0, 0) *)
  Truncate_err : handle -> option error;           (* File.Truncate(0) *)
  Encode_err : handle -> option error;             (* gob encoding *)
  FileClose_err : handle -> option error;          (* File.Close on an open handle *)
  ErrFailedSeek : error
}.

(** ** Store and table primitives *)

(** The zero value of the follower struct: what an address reads as before
    anything was stored there. *)
Definition follower_zero : follower := mkFollower (mkFileName "" "") 0%nat 0 None.

Definition getf (s : FilterManager) (p : fptr) : follower :=
  default follower_zero (objs s !! p).

Definition load (s : FilterManager) (c : nat) : Z := default 0 (cells s !! c).

Definition set_filters (x : list filter) (s : FilterManager) : FilterManager :=
  mkFM x (followers s) (states s) (stateFile s) (stateFout s)
       (objs s) (cells s) (next s) (trace s).

Definition set_followers (x : option (gmap FileName fptr)) (s : FilterManager) : FilterManager :=
  mkFM (filters s) x (states s) (stateFile s) (stateFout s)
       (objs s) (cells s) (next s) (trace s).

Definition set_states (x : gmap FileName cellptr) (s : FilterManager) : FilterManager :=
  mkFM (filters s) (followers s) x (stateFile s) (stateFout s)
       (objs s) (cells s) (next s) (trace s).

Definition set_stateFout (x : option handle) (s : FilterManager) : FilterManager :=
  mkFM (filters s) (followers s) (states s) (stateFile s) x
       (objs s) (cells s) (next s) (trace s).

Definition set_obj (p : fptr) (v : follower) (s : FilterManager) : FilterManager :=
  mkFM (filters s) (followers s) (states s) (stateFile s) (stateFout s)
       (<[p := v]> (objs s)) (cells s) (next s) (trace s).

Definition store (c : nat) (z : Z) (s : FilterManager) : FilterManager :=
  mkFM (filters s) (followers s) (states s) (stateFile s) (stateFout s)
       (objs s) (<[c := z]> (cells s)) (next s) (trace s).

Definition bump (s : FilterManager) : FilterManager :=
  mkFM (filters s) (followers s) (states s) (stateFile s) (stateFout s)
       (objs s) (cells s) (S (next s)) (trace s).

Definition emit (e : event) (s : FilterManager) : FilterManager :=
  mkFM (filters s) (followers s) (states s) (stateFile s) (stateFout s)
       (objs s) (cells s) (next s) (trace s ++ [e]).

(** [f.followers[k]]: reading the nil map finds nothing. *)
Definition fl_lookup (s : FilterManager) (k : FileName) : option fptr :=
  followers s ≫= (fun m => m !! k).

(** [delete(f.followers, k)]: a no-op on the nil map. *)
Definition fl_delete (k : FileName) (s : FilterManager) : FilterManager :=
  set_followers (delete k <$> followers s) s.

(** [f.followers[k] = p]: panics on the nil map. *)
Definition fl_insert (k : FileName) (p : fptr) (s : FilterManager) : outcome unit :=
  match followers s with
  | Some m => Ret tt (set_followers (Some (<[k := p]> m)) s)
  | None => Panic "assignment to entry in nil map"
  end.

Definition st_delete (k : FileName) (s : FilterManager) : FilterManager :=
  set_states (delete k (states s)) s.

Definition st_insert (k : FileName) (c : cellptr) (s : FilterManager) : FilterManager :=
  set_states (<[k := c]> (states s)) s.

(** [f.filters[i]] for a Go [int] index: None is the index-out-of-range
    panic. *)
Definition index (fs : list filter) (i : Z) : option filter :=
  if decide (0 <= i) then fs !! Z.to_nat i else None.


(** ** The operations of filters.go *)

Section Model.
Context (E : Env).

(** *** The follower collaborator *)

(** Modelled from the spec: [follower.Close] (declared outside filters.go)
    stops the follower and releases its resources, and may fail. *)
Definition follower_Close (p : fptr) (s : FilterManager) : option error * FilterManager :=
  (Close_err E p, emit (EvClose p) s).

(** Modelled from the spec: [follower.Start] (declared outside filters.go)
    begins tailing, and may fail. *)
Definition follower_Start (p : fptr) (s : FilterManager) : option error * FilterManager :=
  (Start_err E (fileName (getf s p)), emit (EvStart p) s).

(** Modelled from the spec: the package-level constructor
    [NewFollower(bname, fpath, fstate, filterId, lh)] (declared outside
    filters.go) builds a follower bound to one tracking key that records the
    identity of the file at creation time and references the offset cell it
    is given.  It may fail. *)
Definition NewFollower_ctor (bname fpath : string) (fstate : cellptr) (fid : Z)
    (h : handler) (s : FilterManager) : (error + fptr) * FilterManager :=
  let k := mkFileName bname fpath in
  match New_err E k with
  | Some e => (inl e, s)
  | None =>
    match getFileIdFromName E fpath with
    | inl e => (inl e, s)
    | inr id =>
      let p := next s in
      (inr p, emit (EvNew p) (bump (set_obj p (mkFollower k id fid fstate) s)))
    end
  end.

(** [Close] of [os.File]: on the nil handle the standard library returns
    [os.ErrInvalid]. *)
Definition ErrInvalid : error := "invalid argument".

Definition File_Close (h : option handle) : option error :=
  match h with
  | None => Some ErrInvalid
  | Some fd => FileClose_err E fd
  end.

(** *** Filter registry and matching *)

Fixpoint matchFile (ms : list string) (fname : string) : bool :=
  match ms with
  | [] => false
  | m :: ms' =>
    match Match E m fname with
    | Some true => true
    | _ => matchFile ms' fname
    end
  end.

Definition AddFilter (bn lc : string) (ms : list string) (h : handler)
    (s : FilterManager) : option error * FilterManager :=
  let fltr := mkFilter bn (Clean E lc) ms h in
  (None, set_filters (filters s ++ [fltr]) s).

Definition Followed (s : FilterManager) : nat :=
  match followers s with Some m => size m | None => 0%nat end.

Definition Filters (s : FilterManager) : nat := length (filters s).

(** *** Removal *)

Fixpoint removeLoop (fs : list filter) (fpath : string) (s : FilterManager)
    : option error * FilterManager :=
  match fs with
  | [] => (None, s)
  | v :: fs' =>
    let stid := mkFileName (bname v) fpath in
    match fl_lookup s stid with
    | Some fl =>
      let s1 := st_delete stid (fl_delete stid s) in
      match follower_Close fl s1 with
      | (Some err, s2) => (Some err, s2)
      | (None, s2) => removeLoop fs' fpath s2
      end
    | None => removeLoop fs' fpath s
    end
  end.

Definition nolockRemoveFollower (fpath : string) (s : FilterManager)
    : option error * FilterManager :=
  removeLoop (filters s) fpath s.

Definition RemoveFollower (fpath : string) (s : FilterManager)
    : option error * FilterManager :=
  nolockRemoveFollower fpath s.

(** *** Identity search *)

(** The walk function of [findFileId], applied to the entries of the walk in
    order; [p] and [ok] are the named results.  An error of
    [getFileIdFromName] is returned by the walk function and ends the walk. *)
Fixpoint findLoop (es : list WalkEntry) (ms : list string) (id : FileId)
    (p : string) (ok : bool) : string * bool * option error :=
  match es with
  | [] => (p, ok, None)
  | e :: es' =>
    if negb (wregular e) || ok then findLoop es' ms id p ok
    else if matchFile ms (Base E (wpath e)) then
      match getFileIdFromName E (wpath e) with
      | inl rerr => (p, ok, Some rerr)
      | inr lid =>
        if decide (lid = id) then findLoop es' ms id (wpath e) true
        else findLoop es' ms id p ok
      end
    else findLoop es' ms id p ok
  end.

Definition findFileId (base : string) (ms : list string) (id : FileId)
    : string * bool * option error :=
  findLoop (Walk E base) ms id "" false.

(** *** Follower creation *)

Definition addFollower (bn fpath : string) (si : cellptr) (fid : Z) (h : handler)
    (s : FilterManager) : outcome (option error) :=
  let stid := mkFileName bn fpath in
  match getFileIdFromName E fpath with
  | inl err => Ret (Some err) s
  | inr id =>
    let occupied :=
      match fl_lookup s stid with
      | Some flw =>
        if decide (fileId (getf s flw) = id) then (Some "duplicate follower", s)
        else
          (* delete the old follower *)
          follower_Close flw (st_delete stid (fl_delete stid s))
      | None => (None, s)
      end in
    match occupied with
    | (Some err, s1) => Ret (Some err) s1
    | (None, s1) =>
      match NewFollower_ctor bn fpath si fid h s1 with
      | (inl err, s2) => Ret (Some err) s2
      | (inr fl, s2) =>
        match follower_Start fl s2 with
        | (Some err, s3) => Ret (Some err) (follower_Close fl s3).2
        | (None, s3) =>
          match fl_insert stid fl s3 with
          | Ret _ s4 => Ret None s4
          | Panic msg => Panic msg
          end
        end
      end
    end
  end.

(** [seekInfo] ranges over the state map and returns at the first key equal
    to (bname, fpath); at most one key is, so the order does not matter (see
    [seekInfo_lookup]). *)
Fixpoint seekInfo_in (l : list (FileName * cellptr)) (bn fpath : string) : cellptr :=
  match l with
  | [] => None
  | (k, v) :: l' =>
    if decide (BaseName k = bn ∧ FilePath k = fpath) then v
    else seekInfo_in l' bn fpath
  end.

Definition seekInfo (bn fpath : string) (s : FilterManager) : cellptr :=
  seekInfo_in (map_to_list (states s)) bn fpath.

Definition addSeekInfo (bn fpath : string) (s : FilterManager) : cellptr * FilterManager :=
  let stid := mkFileName bn fpath in
  let si := next s in
  (Some si, st_insert stid (Some si) (bump (store si 0 s))).

(** *** Explicit rename notification *)

(** The first loop of [RenameFollower]: the identity of the follower whose
    recorded path is [fpath]; [acc] is the pair of [id] and [hit]. *)
Fixpoint findId (order : list FileName) (fpath : string) (s : FilterManager)
    (acc : option FileId) : option FileId :=
  match order with
  | [] => acc
  | k :: rest =>
    match fl_lookup s k with
    | Some flw =>
      if decide (FilePath (fileName (getf s flw)) = fpath)
      then findId rest fpath s (Some (fileId (getf s flw)))
      else findId rest fpath s acc
    | None => findId rest fpath s acc
    end
  end.

(** The loop over the filters, [i] being the index of the head of [fs]. *)
Fixpoint renameLoop (fs : list filter) (i : Z) (fpath : string) (id : FileId)
    (s : FilterManager) : outcome (option error) :=
  match fs with
  | [] =>
    (* filename was never found, remove it *)
    let '(err, s') := nolockRemoveFollower fpath s in Ret err s'
  | v :: rest =>
    let stid := mkFileName (bname v) fpath in
    match fl_lookup s stid with
    | None => renameLoop rest (i + 1) fpath id s
    | Some flw =>
      match findFileId (loc v) (mtchs v) id with
      | (_, _, Some err) =>
        Ret (Some err) (fl_delete stid (st_delete stid (follower_Close flw s).2))
      | (_, false, None) => renameLoop rest (i + 1) fpath id s
      | (p, true, None) =>
        (* we found it, make sure its not the same file name *)
        if decide (p = fpath) then Ret None s
        else if decide (filterId (getf s flw) = i) then
          (* just update the names *)
          let s1 := set_obj flw (mkFollower stid (fileId (getf s flw))
                                   (filterId (getf s flw)) (state (getf s flw)))
                            (fl_delete stid s) in
          match states s1 !! stid with
          | None =>
            Ret (Some "failed to find state on rename") (follower_Close flw s1).2
          | Some st =>
            let stid' := mkFileName (bname v) p in
            match fl_insert stid' flw (st_insert stid' st s1) with
            | Ret _ s2 => Ret None s2
            | Panic msg => Panic msg
            end
          end
        else
          (* different file name and still worth tracking *)
          match states s !! stid with
          | None =>
            Ret (Some "Failed to find old state")
                (fl_delete stid (follower_Close flw s).2)
          | Some st =>
            match follower_Close flw (st_delete stid (fl_delete stid s)) with
            | (Some err, s1) => Ret (Some err) s1
            | (None, s1) =>
              match st with
              | None => Panic "invalid memory address or nil pointer dereference"
              | Some c => addFollower (bname v) p st i (lh v) (store c 0 s1)
              end
            end
          end
      end
    end
  end.

Definition RenameFollower (order : list FileName) (fpath : string)
    (s : FilterManager) : outcome (option error) :=
  match findId order fpath s None with
  | None => Ret None s
  | Some id => renameLoop (filters s) 0 fpath id s
  end.

(** *** Rename detection *)

(** The body of the loop of [checkRename] for a follower whose identity
    matched. *)
Definition checkRename_hit (k : FileName) (v : fptr) (fpath : string)
    (isRename : bool) (s : FilterManager)
    : outcome (bool * bool * option error) (* stop, isRename, err *) :=
  let fname := Base E fpath in
  let fdir := Dir E fpath in
  (* check if the new name still matches the filter *)
  let fid := filterId (getf s v) in
  let removeFollower :=
    bool_decide (Z.of_nat (length (filters s)) <= fid) || bool_decide (fid < 0) in
  match index (filters s) fid with
  | None => Panic "index out of range"
  | Some flt =>
    let branch : outcome (bool * bool * FileName) :=
      if negb (bool_decide (loc flt = fdir)) || negb (matchFile (mtchs flt) fname) then
        (* this is just a rename, update the fpath in the follower *)
        let k' := mkFileName (BaseName k) fpath in
        let s1 := fl_delete k (st_delete k s) in
        let v' := mkFollower (mkFileName (BaseName (fileName (getf s1 v))) fpath)
                             (fileId (getf s1 v)) (filterId (getf s1 v))
                             (state (getf s1 v)) in
        let s2 := set_obj v v' s1 in
        match fl_insert k' v (st_insert k' (state (getf s2 v)) s2) with
        | Ret _ s3 => Ret (removeFollower, true, k') s3
        | Panic msg => Panic msg
        end
      else Ret (true, isRename, k) s in
    match branch with
    | Panic msg => Panic msg
    | Ret (true, isRename', k1) s1 =>
      (* this is a move away from the current filter, so delete the follower
         and delete the state *)
      match follower_Close v s1 with
      | (Some err, s2) => Ret (true, isRename', Some err) s2
      | (None, s2) => Ret (false, isRename', None) (fl_delete k1 (st_delete k1 s2))
      end
    | Ret (false, isRename', _) s1 => Ret (false, isRename', None) s1
    end
  end.

Fixpoint checkRename_loop (order : list FileName) (fpath : string) (id : FileId)
    (isRename : bool) (s : FilterManager) : outcome (bool * option error) :=
  match order with
  | [] => Ret (isRename, None) s
  | k :: rest =>
    match fl_lookup s k with
    | None => checkRename_loop rest fpath id isRename s
    | Some v =>
      if decide (fileId (getf s v) = id) then
        match checkRename_hit k v fpath isRename s with
        | Panic msg => Panic msg
        | Ret (true, isRename', err) s1 => Ret (isRename', err) s1
        | Ret (false, isRename', _) s1 => checkRename_loop rest fpath id isRename' s1
        end
      else checkRename_loop rest fpath id isRename s
    end
  end.

Definition checkRename (order : list FileName) (fpath : string) (id : FileId)
    (s : FilterManager) : outcome (bool * option error) :=
  checkRename_loop order fpath id false s.

(** *** Follower intake *)

Fixpoint launchLoop (fs : list filter) (i : Z) (fpath fname fdir : string)
    (deleteState : bool) (s : FilterManager) : outcome (option error) :=
  match fs with
  | [] => Ret None s
  | v :: rest =>
    (* check base directory and pattern match *)
    if negb (bool_decide (loc v = fdir)) || negb (matchFile (mtchs v) fname)
    then launchLoop rest (i + 1) fpath fname fdir deleteState s
    else
      let si := if deleteState then None else seekInfo (bname v) fpath s in
      let '(si', s1) :=
        match si with
        | None => addSeekInfo (bname v) fpath s
        | Some _ => (si, s)
        end in
      match addFollower (bname v) fpath si' i (lh v) s1 with
      | Ret None s2 => launchLoop rest (i + 1) fpath fname fdir deleteState s2
      | Ret (Some err) s2 => Ret (Some err) s2
      | Panic msg => Panic msg
      end
  end.

Definition launchFollowers (order : list FileName) (fpath : string)
    (deleteState : bool) (s : FilterManager) : outcome (option error) :=
  match getFileIdFromName E fpath with
  | inl err => Ret (Some err) s
  | inr id =>
    (* check if this is just a renaming *)
    match checkRename order fpath id s with
    | Panic msg => Panic msg
    | Ret (_, Some err) s1 => Ret (Some err) s1
    | Ret (true, None) s1 => Ret None s1
    | Ret (false, None) s1 =>
      launchLoop (filters s1) 0 fpath (Base E fpath) (Dir E fpath) deleteState s1
    end
  end.

Definition NewFollower (order : list FileName) (fpath : string)
    (s : FilterManager) : outcome (option error) :=
  launchFollowers order fpath true s.

Definition LoadFile (order : list FileName) (fpath : string)
    (s : FilterManager) : outcome (option error) :=
  launchFollowers order fpath false s.

(** *** Shutdown and persistence *)

(** [fmt.Errorf("%v : %v", err, nerr)], a nil [nerr] printing as <nil>. *)
Definition appendErr (err nerr : option error) : option error :=
  match err with
  | None => nerr
  | Some e => Some (e ++ " : " ++ default "<nil>" nerr)%string
  end.

(** What the encoder writes: every key with the value of its cell. *)
Definition snapshot (s : FilterManager) : list (FileName * option Z) :=
  (fun kv : FileName * option nat => (kv.1, load s <$> kv.2)) <$> map_to_list (states s).

Definition dumpStates (s : FilterManager) : option error * FilterManager :=
  match stateFout s with
  | None => (None, s)
  | Some h =>
    let s1 := emit (EvSeek h) s in
    match Seek_res E h with
    | inl err => (Some err, s1)
    | inr n =>
      if decide (n = 0) then
        let s2 := emit (EvTruncate h) s1 in
        match Truncate_err E h with
        | Some err => (Some err, s2)
        | None => (Encode_err E h, emit (EvEncode h (snapshot s2)) s2)
        end
      else (Some (ErrFailedSeek E), s1)
    end
  end.

Fixpoint closeLoop (order : list FileName) (err : option error) (s : FilterManager)
    : option error * FilterManager :=
  match order with
  | [] => (err, s)
  | k :: rest =>
    match fl_lookup s k with
    | None => closeLoop rest err s
    | Some v =>
      match follower_Close v s with
      | (Some lerr, s1) => closeLoop rest (appendErr err (Some lerr)) s1
      | (None, s1) => closeLoop rest err s1
      end
    end
  end.

Definition Close (order : list FileName) (s : FilterManager)
    : option error * FilterManager :=
  (* we have to actually close followers *)
  let '(err, s1) := closeLoop order None s in
  let s2 := set_filters [] (set_followers None s1) in
  match dumpStates s2 with
  | (Some e, s3) => (Some e, s3)
  | (None, s3) =>
    let s4 := emit (EvFileClose (stateFout s3)) s3 in
    match File_Close (stateFout s3) with
    | Some e => (Some e, s4)
    | None => (err, set_stateFout None s4)
    end
  end.

(** [cleanStates] runs before the manager exists: it works on the loaded
    map and on the cells that map points to. *)
Fixpoint cleanStates (order : list FileName) (m : gmap FileName cellptr)
    (h : gmap nat Z) : option error * gmap FileName cellptr * gmap nat Z :=
  match order with
  | [] => (None, m, h)
  | k :: rest =>
    match m !! k with
    | None => cleanStates rest m h
    | Some v =>
      match Stat E (FilePath k) with
      | StatNotExist =>
        (* file is gone, delete it *)
        cleanStates rest (delete k m) h
      | StatErr err => (Some err, m, h)
      | StatOk size =>
        (* if file shrank, we have to assume this was a truncation *)
        match v with
        | Some c =>
          if decide (size < default 0 (h !! c))
          then cleanStates rest m (<[c := 0]> h)
          else cleanStates rest m h
        | None => cleanStates rest m h
        end
      end
    end
  end.

End Model.

(** ** Construction of the manager *)

(** What [initStateFile] asks of the state file, beyond [Stat]. *)
Record StoreEnv := mkStoreEnv {
  IsRegular : string -> bool;                   (* fi.Mode().IsRegular() of an existing path *)
  OpenCreate : string -> error + handle;        (* OpenFile with O_RDWR|O_CREATE|O_TRUNC *)
  OpenRW : string -> error + handle;            (* OpenFile with O_RDWR *)
  FileSize : handle -> error + Z;               (* fout.Stat() and fi.Size() *)
  Decode : handle -> error + list (FileName * Z); (* the gob decoder: the entries, in stream order *)
  ErrInvalidStateFile : error
}.

(** The decoder stores every entry it reads in the map, with a cell of its
    own; [n] is the next free address. *)
Fixpoint loadStates (l : list (FileName * Z)) (n : nat)
    (m : gmap FileName cellptr) (h : gmap nat Z)
    : gmap FileName cellptr * gmap nat Z * nat :=
  match l with
  | [] => (m, h, n)
  | (k, z) :: l' => loadStates l' (S n) (<[k := Some n]> m) (<[n := z]> h)
  end.

Section Construction.
Context (E : Env) (S : StoreEnv).

(** The results are the handle, the states with their cells and the next
    free address, and the error.  [os.OpenFile] returns a nil handle with an
    error. *)
Definition initStateFile (p : string)
    : option handle * (gmap FileName cellptr * gmap nat Z * nat) * option error :=
  let empty : gmap FileName cellptr * gmap nat Z * nat := (∅, ∅, 0%nat) in
  match Stat E p with
  | StatErr e =>
    (* the error is not a "not found" error *)
    (None, empty, Some ("state file path is invalid%!(EXTRA *fs.PathError=" ++ e ++ ")")%string)
  | StatNotExist =>
    (* attempt to create the file and get a handle, states will be empty *)
    match OpenCreate S p with
    | inl e => (None, empty, Some e)
    | inr fout => (Some fout, empty, None)
    end
  | StatOk _ =>
    if IsRegular S p then
      match OpenRW S p with
      | inl e => (None, empty, Some ("Failed to open state file RW: " ++ e)%string)
      | inr fout =>
        match FileSize S fout with
        | inl e => (Some fout, empty, Some ("Failed to stat open file: " ++ e)%string)
        | inr size =>
          if decide (0 < size) then
            match Decode S fout with
            | inl e =>
              (Some fout, empty, Some ("Failed to load existing states: " ++ e)%string)
            | inr l => (Some fout, loadStates l 0 ∅ ∅, None)
            end
          else (Some fout, empty, None)
        end
      end
    else (None, empty, Some (ErrInvalidStateFile S))
  end.

(** The calls made on the store handle, and the manager or the error. *)
Definition NewFilterManager (order : list FileName) (stateFile : string)
    : list event * (error + FilterManager) :=
  match initStateFile stateFile with
  | (_, _, Some err) => ([], inl err)
  | (fout, (m, h, n), None) =>
    match cleanStates E order m h with
    | (Some err, _, _) => ([EvFileClose fout], inl err)
    | (None, m', h') => ([], inr (mkFM [] (Some ∅) m' stateFile fout ∅ h' n []))
    end
  end.

End Construction.

(** ** A small concrete world

    Used to run the operations: clean absolute paths, patterns made of
    literal characters and [*], and tables for what the file system and the
    followers answer. *)

(** Directory and last element of a clean path with at least one slash. *)
Fixpoint path_split (s : string) : option string * string :=
  match s with
  | EmptyString => (None, EmptyString)
  | String c r =>
    let '(d, b) := path_split r in
    if Ascii.eqb c "/"%char then
      match d with
      | None => (Some EmptyString, b)
      | Some d' => (Some (String c d'), b)
      end
    else
      match d with
      | None => (None, String c b)
      | Some d' => (Some (String c d'), b)
      end
  end.

Definition path_dir (s : string) : string :=
  match (path_split s).1 with
  | None => "."
  | Some EmptyString => "/"
  | Some d => d
  end.

Definition path_base (s : string) : string := (path_split s).2.

(** Shell pattern matching restricted to literal characters and [*]. *)
Fixpoint glob (p : string) (s : string) : bool :=
  match p with
  | EmptyString => match s with EmptyString => true | _ => false end
  | String c p' =>
    if Ascii.eqb c "*"%char then
      (fix star (t : string) : bool :=
         glob p' t || match t with
                      | EmptyString => false
                      | String _ t' => star t'
                      end) s
    else
      match s with
      | String c' s' => Ascii.eqb c c' && glob p' s'
      | EmptyString => false
      end
  end.

Fixpoint assoc {A : Type} (l : list (string * A)) (k : string) : option A :=
  match l with
  | [] => None
  | (k', a) :: l' => if decide (k' = k) then Some a else assoc l' k
  end.

(** The files of the world: path, identity and size; the followers whose
    [Close] fails; and what the durable store answers to [Seek]. *)
Definition world (files : list (string * (FileId * Z)))
    (closeFails : list (fptr * error)) (seek : error + Z) : Env :=
  {| Base := path_base;
     Dir := path_dir;
     Clean := fun p => p;
     Match := fun p s => Some (glob p s);
     Walk := fun base =>
       (fun f : string * (FileId * Z) => mkWalkEntry f.1 true)
         <$> List.filter (fun f : string * (FileId * Z) => bool_decide (path_dir f.1 = base)) files;
     Stat := fun p =>
       match assoc files p with
       | Some (_, size) => StatOk size
       | None => StatNotExist
       end;
     getFileIdFromName := fun p =>
       match assoc files p with
       | Some (id, _) => inr id
       | None => inl "no such file or directory"
       end;
     New_err := fun _ => None;
     Start_err := fun _ => None;
     Close_err := fun p => (list_to_map closeFails : gmap nat error) !! p;
     Seek_res := fun _ => seek;
     Truncate_err := fun _ => None;
     Encode_err := fun _ => None;
     FileClose_err := fun _ => None;
     ErrFailedSeek := "failed to seek" |}.

Definition appLogs : filter := mkFilter "app" "/logs" ["*.log"] 0%nat.
Definition sysLogs : filter := mkFilter "sys" "/logs" ["sys*"; "*.log"] 1%nat.
Definition oldLogs : filter := mkFilter "old" "/logs" ["*.log.1"] 2%nat.

Definition key (bn fpath : string) : FileName := mkFileName bn fpath.

(** A manager with the given filters and one follower per entry of [fls]
    (key, identity, filter id, offset), each paired with its own cell. *)
Fixpoint populate (fls : list (FileName * FileId * Z * Z)) (s : FilterManager)
    : FilterManager :=
  match fls with
  | [] => s
  | (k, id, fid, off) :: rest =>
    let p := next s in
    let s1 := bump (store p off (set_obj p (mkFollower k id fid (Some p)) s)) in
    populate rest
      (st_insert k (Some p)
         (set_followers (Some (<[k := p]> (default ∅ (followers s1)))) s1))
  end.

Definition manager (fs : list filter) (fls : list (FileName * FileId * Z * Z))
    : FilterManager :=
  populate fls (mkFM fs (Some ∅) ∅ "/var/state" (Some 3%nat) ∅ ∅ 0 []).

(** ** Vocabulary of the statements *)

(** The combined error of a bulk teardown: the messages of the failed
    closes, in the order they happened, joined by " : ". *)
Definition merged_errors (errs : list error) : option error :=
  match errs with
  | [] => None
  | _ :: _ => Some (String.concat " : " errs)
  end.

(** The first failure of the durable store during shutdown: rewinding,
    truncating, encoding, then closing the handle. *)
Definition store_failure (E : Env) (h : option handle) : option error :=
  match h with
  | None => Some ErrInvalid
  | Some fd =>
    match Seek_res E fd with
    | inl e => Some e
    | inr n =>
      if decide (n = 0) then
        match Truncate_err E fd, Encode_err E fd with
        | Some e, _ => Some e
        | None, Some e => Some e
        | None, None => FileClose_err E fd
        end
      else Some (ErrFailedSeek E)
    end
  end.

(** The followers found at the keys of [order]. *)
Definition visited (s : FilterManager) (order : list FileName) : list fptr :=
  omap (fl_lookup s) order.

(** [s] after the calls [es] on the collaborators. *)
Definition emit_all (es : list event) (s : FilterManager) : FilterManager :=
  mkFM (filters s) (followers s) (states s) (stateFile s) (stateFout s)
       (objs s) (cells s) (next s) (trace s ++ es).

(** Every key of the follower table is a key of the state map, with the
    cell its follower references. *)
Definition pairing (s : FilterManager) : Prop :=
  ∀ k p, fl_lookup s k = Some p → states s !! k = Some (state (getf s p)).

(** No cell is shared by two keys: the decoder of the snapshot allocates a
    cell per entry. *)
Definition separate (m : gmap FileName cellptr) : Prop :=
  ∀ k1 k2 c, m !! k1 = Some (Some c) → m !! k2 = Some (Some c) → k1 = k2.

(** Reading a cell of a store of cells. *)
Definition rd (h : gmap nat Z) (c : nat) : Z := default 0 (h !! c).

(** C6 as the claim states it: [Close] returns the failures of the follower
    closes, merged. *)
Definition Close_returns_merged (E : Env) (order : list FileName)
    (s : FilterManager) : Prop :=
  (Close E order s).1 = merged_errors (omap (Close_err E) (visited s order)).

(** Two followers on the same file, one per filter. *)
Definition twoFollowers : FilterManager :=
  manager [appLogs; sysLogs]
    [(key "app" "/logs/a.log", 7%nat, 0, 4096);
     (key "sys" "/logs/a.log", 7%nat, 1, 100)].

Definition twoKeys : list FileName :=
  [key "app" "/logs/a.log"; key "sys" "/logs/a.log"].

(** C8 as the claim states it: after [RemoveFollower] every follower that
    was registered at (filter name, path) for a filter of the registry is
    out of both tables and closed. *)
Definition RemoveFollower_tears_down_all (E : Env) (fpath : string)
    (s : FilterManager) : Prop :=
  ∀ v p, v ∈ filters s → fl_lookup s (key (bname v) fpath) = Some p →
    fl_lookup (RemoveFollower E fpath s).2 (key (bname v) fpath) = None
    ∧ states (RemoveFollower E fpath s).2 !! key (bname v) fpath = None
    ∧ EvClose p ∈ trace (RemoveFollower E fpath s).2.

(** What a removal that went through the filters [done] and stopped before
    [post] leaves: the followers found at the keys of [done] are out of both
    tables and closed, every other key is as it was, nothing else was
    closed, and the removal stopped early only on a failed close, which it
    returns. *)
Definition removed_through (E : Env) (fpath : string) (s : FilterManager)
    (done post : list filter) (res : option error * FilterManager) : Prop :=
  (∀ v p, v ∈ done → fl_lookup s (key (bname v) fpath) = Some p →
     fl_lookup res.2 (key (bname v) fpath) = None
     ∧ states res.2 !! key (bname v) fpath = None)
  ∧ (∀ k, (∀ v, v ∈ done → k = key (bname v) fpath → fl_lookup s k = None) →
       fl_lookup res.2 k = fl_lookup s k ∧ states res.2 !! k = states s !! k)
  ∧ (∀ q, EvClose q ∈ trace res.2 ↔
       EvClose q ∈ trace s
       ∨ ∃ v, v ∈ done ∧ fl_lookup s (key (bname v) fpath) = Some q)
  ∧ match res.1 with
    | None => post = []
    | Some e =>
      ∃ pre v p, done = pre ++ [v]
        ∧ fl_lookup s (key (bname v) fpath) = Some p
        ∧ Close_err E p = Some e
    end.

(** A loaded snapshot: a.log shrank below its offset, b.log grew, gone.log
    was deleted. *)
Definition loadedStates : gmap FileName cellptr :=
  {[ key "app" "/logs/a.log" := Some 0%nat;
     key "app" "/logs/b.log" := Some 1%nat;
     key "app" "/logs/gone.log" := Some 2%nat ]}.

Definition loadedCells : gmap nat Z :=
  {[ 0%nat := 4096; 1%nat := 100; 2%nat := 7 ]}.

Definition loadedKeys : list FileName :=
  [key "app" "/logs/gone.log"; key "app" "/logs/a.log"; key "app" "/logs/b.log"].

Definition diskNow : Env :=
  world [("/logs/a.log", (7%nat, 10)); ("/logs/b.log", (8%nat, 500))] [] (inr 0).

(** One follower: a.log under the filter *.log of /logs, identity 7, at
    offset 4096. *)
Definition oneFollower : FilterManager :=
  manager [appLogs] [(key "app" "/logs/a.log", 7%nat, 0, 4096)].

(** a.log is still the file that is followed. *)
Definition sameFile : Env := world [("/logs/a.log", (7%nat, 5000))] [] (inr 0).

(** a.log was replaced by another file of the same name. *)
Definition replacedFile : Env := world [("/logs/a.log", (9%nat, 0))] [] (inr 0).

(** a.log was renamed to b.log. *)
Definition renamedFile : Env := world [("/logs/b.log", (7%nat, 5000))] [] (inr 0).

(** Two filters registered under one name, and a.txt followed under the
    second one. *)
Definition logOrTxt : list filter :=
  [mkFilter "app" "/logs" ["*.log"] 0%nat; mkFilter "app" "/logs" ["*.txt"] 1%nat].

Definition txtFollower : FilterManager :=
  manager logOrTxt [(key "app" "/logs/a.txt", 7%nat, 1, 4096)].

(** An entry of the walk that [findFileId] looks at: a regular file whose
    base name the patterns match. *)
Definition eligible (E : Env) (ms : list string) (e : WalkEntry) : bool :=
  wregular e && matchFile E ms (Base E (wpath e)).

(** The walk went through [pre] without finding the identity and without
    an error: every entry it looked at has another identity. *)
Definition passed (E : Env) (ms : list string) (id : FileId)
    (pre : list WalkEntry) : Prop :=
  ∀ e, e ∈ pre → eligible E ms e = true →
    ∃ lid, getFileIdFromName E (wpath e) = inr lid ∧ lid ≠ id.

(** a.log was deleted, nothing of its identity is left. *)
Definition emptyDir : Env := world [] [] (inr 0).

(** The identity of a.log cannot be read any more. *)
Definition unreadable : Env :=
  {| Base := path_base; Dir := path_dir; Clean := fun p => p;
     Match := fun p s => Some (glob p s);
     Walk := fun _ => [mkWalkEntry "/logs/z.log" true];
     Stat := fun _ => StatErr "permission denied";
     getFileIdFromName := fun _ => inl "permission denied";
     New_err := fun _ => None; Start_err := fun _ => None;
     Close_err := fun _ => None; Seek_res := fun _ => inr 0;
     Truncate_err := fun _ => None; Encode_err := fun _ => None;
     FileClose_err := fun _ => None; ErrFailedSeek := "failed to seek" |}.

(** A manager restarted from a snapshot: one filter, no follower yet, and
    the offset 4096 recorded for a.log. *)
Definition resting : FilterManager :=
  st_insert (key "app" "/logs/a.log") (Some 0%nat)
    (bump (store 0 4096 (manager [appLogs] []))).

(** The follower on a.log cannot be started. *)
Definition cannotStart : Env :=
  {| Base := path_base; Dir := path_dir; Clean := fun p => p;
     Match := fun p s => Some (glob p s);
     Walk := fun _ => [];
     Stat := fun _ => StatOk 5000;
     getFileIdFromName := fun _ => inr 7%nat;
     New_err := fun _ => None; Start_err := fun _ => Some "cannot watch";
     Close_err := fun _ => None; Seek_res := fun _ => inr 0;
     Truncate_err := fun _ => None; Encode_err := fun _ => None;
     FileClose_err := fun _ => None; ErrFailedSeek := "failed to seek" |}.

(** A state file holding three offsets, and the disk it is loaded on:
    a.log shrank, b.log grew, gone.log is gone. *)
Definition savedOffsets : list (FileName * Z) :=
  [(key "app" "/logs/a.log", 4096); (key "app" "/logs/b.log", 100);
   (key "app" "/logs/gone.log", 7)].

Definition stateFileOk : StoreEnv :=
  {| IsRegular := fun _ => true;
     OpenCreate := fun _ => inr 3%nat;
     OpenRW := fun _ => inr 3%nat;
     FileSize := fun _ => inr 64;
     Decode := fun _ => inr savedOffsets;
     ErrInvalidStateFile := "invalid state file" |}.

Definition stateFileCorrupt : StoreEnv :=
  {| IsRegular := fun _ => true;
     OpenCreate := fun _ => inr 3%nat;
     OpenRW := fun _ => inr 3%nat;
     FileSize := fun _ => inr 64;
     Decode := fun _ => inl "unexpected EOF";
     ErrInvalidStateFile := "invalid state file" |}.

Definition diskWithState : Env :=
  world [("/var/state", (1%nat, 64)); ("/logs/a.log", (7%nat, 10));
         ("/logs/b.log", (8%nat, 500))] [] (inr 0).

(** The manager after the follower [v] at key [k] was moved to the key of
    the same filter name and the path [fpath]. *)
Definition moved (k : FileName) (v : fptr) (fpath : string) (s : FilterManager)
    : FilterManager :=
  mkFM (filters s)
       (Some (<[mkFileName (BaseName k) fpath := v]>
                (delete k (default ∅ (followers s)))))
       (<[mkFileName (BaseName k) fpath := state (getf s v)]> (delete k (states s)))
       (stateFile s) (stateFout s)
       (<[v := mkFollower (mkFileName (BaseName (fileName (getf s v))) fpath)
                 (fileId (getf s v)) (filterId (getf s v)) (state (getf s v))]>
          (objs s))
       (cells s) (next s) (trace s).






(** a.txt was renamed to b.log, and the follower of a.txt cannot be
    closed. *)
Definition busyRename : Env :=
  world [("/logs/b.log", (7%nat, 5000))] [(0%nat, "busy")] (inr 0).

(** C5 as the claim states it: whenever the search finds the file, under a
    new name, by a filter whose index is not the filter id of the follower
    (the old key having a cell), the old follower is closed, the cell is set
    to 0 and a new follower is constructed, started and registered under
    (the name of that filter, the new path). *)
Definition RenameFollower_migrates (E : Env) (order : list FileName)
    (fpath : string) (s : FilterManager) : Prop :=
  ∀ id pre v post flw p c,
    findId order fpath s None = Some id →
    filters s = pre ++ v :: post →
    (∀ u, u ∈ pre →
       fl_lookup s (key (bname u) fpath) = None
       ∨ ∃ q, findFileId E (loc u) (mtchs u) id = (q, false, None)) →
    fl_lookup s (key (bname v) fpath) = Some flw →
    findFileId E (loc v) (mtchs v) id = (p, true, None) →
    p ≠ fpath →
    filterId (getf s flw) ≠ Z.of_nat (length pre) →
    states s !! key (bname v) fpath = Some (Some c) →
    ∃ r s' q,
      RenameFollower E order fpath s = Ret r s'
      ∧ EvClose flw ∈ trace s'
      ∧ load s' c = 0
      ∧ fl_lookup s' (key (bname v) p) = Some q
      ∧ EvNew q ∈ trace s'
      ∧ EvStart q ∈ trace s'.





(** A directory with three log files; b.log is the file of identity 7. *)
Definition threeLogs : Env :=
  world [("/logs/a.log", (5%nat, 10)); ("/logs/b.log", (7%nat, 20));
         ("/logs/c.log", (7%nat, 30))] [] (inr 0).

(** ** Facts about the tables *)

(** The entries of a concrete map, one case each. *)
Ltac enum_list H :=
  first [ by apply elem_of_nil in H
        | apply elem_of_cons in H as [H|H]; [simplify_eq | enum_list H] ].

Ltac enum H :=
  apply elem_of_map_to_list in H;
  match type of H with
  | (?x ∈ ?l) => let l' := eval vm_compute in l in change (x ∈ l') in H
  end;
  enum_list H.

Lemma fl_lookup_elem s k p :
  fl_lookup s k = Some p → (k, p) ∈ default [] (map_to_list <$> followers s).
Proof.
  unfold fl_lookup. destruct (followers s) as [m|]; [|done]. simpl.
  by rewrite elem_of_map_to_list.
Qed.

Ltac enum_followers H :=
  apply fl_lookup_elem in H;
  match type of H with
  | (?x ∈ ?l) => let l' := eval vm_compute in l in change (x ∈ l') in H
  end;
  enum_list H.

Lemma fl_lookup_delete k k' s :
  fl_lookup (fl_delete k s) k' = if decide (k = k') then None else fl_lookup s k'.
Proof.
  unfold fl_lookup, fl_delete; simpl.
  destruct (followers s) as [m|]; simpl.
  - apply lookup_delete.
  - by case_decide.
Qed.

Lemma fl_lookup_insert k p s s' k' :
  fl_insert k p s = Ret tt s' →
  fl_lookup s' k' = if decide (k = k') then Some p else fl_lookup s k'.
Proof.
  unfold fl_insert, fl_lookup. destruct (followers s) as [m|]; [|done].
  intros [= <-]; simpl. apply lookup_insert.
Qed.

Lemma index_Some fs i flt :
  index fs i = Some flt ↔ 0 <= i ∧ fs !! Z.to_nat i = Some flt.
Proof. unfold index. destruct (decide (0 <= i)); intuition (try congruence). Qed.


(** [seekInfo] is a lookup in the state map, whatever the order in which
    the map is ranged over. *)
Lemma seekInfo_in_lookup (l : list (FileName * cellptr)) bn fpath :
  seekInfo_in l bn fpath
  = mjoin ((list_to_map l : gmap FileName cellptr) !! key bn fpath).
Proof.
  induction l as [|[k v] l IH]; simpl; [done|].
  case_decide as Hk.
  - destruct k as [b f]. simpl in Hk. destruct Hk as [-> ->].
    by rewrite lookup_insert_eq.
  - rewrite lookup_insert_ne; [done|]. intros ->. by apply Hk.
Qed.

Lemma seekInfo_lookup bn fpath s :
  seekInfo bn fpath s = mjoin (states s !! key bn fpath).
Proof. unfold seekInfo. by rewrite seekInfo_in_lookup, list_to_map_to_list. Qed.

(** ** Rename detection *)

(** Followers of another identity are passed over. *)
Lemma checkRename_loop_skip E pre order fpath id isRename s :
  (∀ k v, k ∈ pre → fl_lookup s k = Some v → fileId (getf s v) ≠ id) →
  checkRename_loop E (pre ++ order) fpath id isRename s =
  checkRename_loop E order fpath id isRename s.
Proof.
  induction pre as [|k pre IH]; intros Hpre; [done|]. simpl.
  destruct (fl_lookup s k) as [v|] eqn:Hk.
  - case_decide as Hid.
    + exfalso. eapply Hpre; [left | exact Hk | exact Hid].
    + apply IH. intros ????. eapply Hpre; [by right | done].
  - apply IH. intros ????. eapply Hpre; [by right | done].
Qed.


(** The loop body of [checkRename] for a follower whose identity matched
    and whose filter id is a registry index: closed and removed when the
    notified path satisfies the filter, moved to the new key otherwise. *)
Lemma checkRename_hit_spec E k v fpath isRename s flt :
  fl_lookup s k = Some v →
  index (filters s) (filterId (getf s v)) = Some flt →
  (loc flt = Dir E fpath ∧ matchFile E (mtchs flt) (Base E fpath) = true →
   Close_err E v = None →
   ∃ s', checkRename_hit E k v fpath isRename s = Ret (false, isRename, None) s'
         ∧ (∀ k', fl_lookup s' k' = if decide (k = k') then None else fl_lookup s k')
         ∧ states s' = delete k (states s)
         ∧ objs s' = objs s
         ∧ cells s' = cells s
         ∧ trace s' = trace s ++ [EvClose v])
  ∧ (loc flt ≠ Dir E fpath ∨ matchFile E (mtchs flt) (Base E fpath) = false →
     ∃ s', checkRename_hit E k v fpath isRename s = Ret (false, true, None) s'
           ∧ (∀ k', fl_lookup s' k' =
                    if decide (mkFileName (BaseName k) fpath = k') then Some v
                    else if decide (k = k') then None else fl_lookup s k')
           ∧ states s' = <[mkFileName (BaseName k) fpath := state (getf s v)]>
                           (delete k (states s))
           ∧ objs s' = <[v := mkFollower
                                (mkFileName (BaseName (fileName (getf s v))) fpath)
                                (fileId (getf s v)) (filterId (getf s v))
                                (state (getf s v))]> (objs s)
           ∧ cells s' = cells s
           ∧ trace s' = trace s).
Proof.
  intros Hk Hidx.
  assert (Hrange : bool_decide (Z.of_nat (length (filters s)) <= filterId (getf s v))
                   || bool_decide (filterId (getf s v) < 0) = false).
  { apply index_Some in Hidx as [H0 Hl]. apply lookup_lt_Some in Hl.
    rewrite bool_decide_eq_false_2, bool_decide_eq_false_2; [done| lia | lia]. }
  split.
  - intros [Hloc Hmatch] Hclose. eexists.
    unfold checkRename_hit. rewrite Hidx.
    rewrite bool_decide_eq_true_2, Hmatch; [|done]. simpl.
    unfold follower_Close. rewrite Hclose.
    split; [reflexivity|]. split; [|done].
    intros k'. apply (fl_lookup_delete k k' s).
  - intros Hno.
    unfold checkRename_hit. rewrite Hidx.
    assert (negb (bool_decide (loc flt = Dir E fpath))
            || negb (matchFile E (mtchs flt) (Base E fpath)) = true) as ->.
    { destruct Hno as [Hl | ->]; [|by rewrite orb_true_r].
      by rewrite bool_decide_eq_false_2. }
    rewrite Hrange.
    unfold fl_lookup in Hk. destruct (followers s) as [m|] eqn:Hm; [|done].
    unfold fl_insert. simpl. rewrite Hm. simpl.
    eexists. split; [reflexivity|].
    unfold fl_lookup, getf. simpl. rewrite Hm, lookup_insert_eq. simpl.
    split; [|done]. intros k'. rewrite lookup_insert, lookup_delete.
    by repeat case_decide.
Qed.

(** A loop that meets no follower of the identity changes nothing. *)
Lemma checkRename_loop_pass E order fpath id isRename s :
  (∀ k v, k ∈ order → fl_lookup s k = Some v → fileId (getf s v) ≠ id) →
  checkRename_loop E order fpath id isRename s = Ret (isRename, None) s.
Proof.
  intros Hpass. rewrite <- (app_nil_r order). by rewrite checkRename_loop_skip.
Qed.

(** C1.  [checkRename] on a table in which one follower, at key [k],
    records the notified identity, its filter id being a registry index.
    The test of the filter is the wrong way round: when the notified path
    still satisfies the filter the follower is closed, its key and cell are
    removed and no rename is reported; when it does not, the follower and
    its cell are moved to the new key, nothing is closed, and a rename is
    reported.  The claim (and the comments in the two branches) say the
    opposite. *)
Theorem checkRename_inverted E pre k post v fpath id s flt :
  (∀ k' v', k' ∈ pre ++ post → fl_lookup s k' = Some v' → fileId (getf s v') ≠ id) →
  mkFileName (BaseName k) fpath ∉ post →
  fl_lookup s k = Some v →
  fileId (getf s v) = id →
  index (filters s) (filterId (getf s v)) = Some flt →
  (loc flt = Dir E fpath ∧ matchFile E (mtchs flt) (Base E fpath) = true →
   Close_err E v = None →
   ∃ s', checkRename E (pre ++ k :: post) fpath id s = Ret (false, None) s'
         ∧ fl_lookup s' k = None
         ∧ states s' !! k = None
         ∧ trace s' = trace s ++ [EvClose v])
  ∧ (loc flt ≠ Dir E fpath ∨ matchFile E (mtchs flt) (Base E fpath) = false →
     ∃ s', checkRename E (pre ++ k :: post) fpath id s = Ret (true, None) s'
           ∧ fl_lookup s' (mkFileName (BaseName k) fpath) = Some v
           ∧ states s' !! mkFileName (BaseName k) fpath = Some (state (getf s v))
           ∧ state (getf s' v) = state (getf s v)
           ∧ FilePath (fileName (getf s' v)) = fpath
           ∧ (k ≠ mkFileName (BaseName k) fpath →
              fl_lookup s' k = None ∧ states s' !! k = None)
           ∧ cells s' = cells s
           ∧ trace s' = trace s).
Proof.
  intros Hothers Hnew Hk Hid Hidx.
  assert (Hstart : ∀ b, checkRename_loop E (pre ++ k :: post) fpath id b s
            = match checkRename_hit E k v fpath b s with
              | Panic msg => Panic msg
              | Ret (true, b', err) s1 => Ret (b', err) s1
              | Ret (false, b', _) s1 => checkRename_loop E post fpath id b' s1
              end).
  { intros b. rewrite checkRename_loop_skip.
    - simpl. by rewrite Hk, decide_True.
    - intros k' v' Hin. apply Hothers. apply elem_of_app. by left. }
  destruct (checkRename_hit_spec E k v fpath false s flt Hk Hidx) as [Hyes Hno].
  unfold checkRename. rewrite Hstart. split.
  - intros Hsat Hclose.
    destruct (Hyes Hsat Hclose) as (s' & -> & Hfl & Hst & Hobj & _ & Htr).
    exists s'. rewrite checkRename_loop_pass.
    + split; [done|]. rewrite Hfl, Hst, decide_True, lookup_delete_eq by done. done.
    + intros k' v' Hin Hk'. rewrite Hfl in Hk'. case_decide; [done|].
      unfold getf. rewrite Hobj. apply (Hothers k' v'); [|done].
      apply elem_of_app. by right.
  - intros Hunsat.
    destruct (Hno Hunsat) as (s' & -> & Hfl & Hst & Hobj & Hcells & Htr).
    exists s'. rewrite checkRename_loop_pass.
    + assert (Hv : getf s' v = mkFollower
                (mkFileName (BaseName (fileName (getf s v))) fpath)
                (fileId (getf s v)) (filterId (getf s v)) (state (getf s v))).
      { unfold getf at 1. by rewrite Hobj, lookup_insert_eq. }
      split; [done|]. rewrite Hfl, Hst, Hv, decide_True, lookup_insert_eq by done.
      simpl. do 4 (split; [done|]). split; [|done]. intros Hne.
      rewrite Hfl, decide_False, decide_True by done.
      by rewrite lookup_insert_ne, lookup_delete_eq.
    + intros k' v' Hin Hk'. rewrite Hfl in Hk'.
      case_decide as Hk1; [by subst k'|]. case_decide; [done|].
      assert (Hv' : fileId (getf s v') ≠ id).
      { apply (Hothers k' v'); [|done]. apply elem_of_app. by right. }
      assert (v ≠ v') by (intros ->; done).
      unfold getf. rewrite Hobj, lookup_insert_ne by done. exact Hv'.
Qed.

(** The failing inputs of C1: a.log, followed under the filter *.log of
    /logs at offset 4096, is renamed to b.log (which the filter still
    matches) and to a.txt (which it does not). *)
Lemma checkRename_inverted_witness :
  (∃ s', checkRename renamedFile ([] ++ key "app" "/logs/a.log" :: [])
           "/logs/b.log" 7%nat oneFollower
         = Ret (false, None) s'
         ∧ fl_lookup s' (key "app" "/logs/a.log") = None
         ∧ states s' !! key "app" "/logs/a.log" = None
         ∧ trace s' = [] ++ [EvClose 0%nat])
  ∧ (∃ s', checkRename (world [("/logs/a.txt", (7%nat, 5000))] [] (inr 0))
             ([] ++ key "app" "/logs/a.log" :: []) "/logs/a.txt" 7%nat oneFollower
           = Ret (true, None) s'
           ∧ fl_lookup s' (key "app" "/logs/a.txt") = Some 0%nat
           ∧ states s' !! key "app" "/logs/a.txt" = Some (Some 0%nat)
           ∧ state (getf s' 0%nat) = Some 0%nat
           ∧ FilePath (fileName (getf s' 0%nat)) = "/logs/a.txt"
           ∧ (key "app" "/logs/a.log" ≠ mkFileName "app" "/logs/a.txt" →
              fl_lookup s' (key "app" "/logs/a.log") = None
              ∧ states s' !! key "app" "/logs/a.log" = None)
           ∧ cells s' = {[ 0%nat := 4096 ]}
           ∧ trace s' = []).
Proof.
  split.
  - apply (checkRename_inverted renamedFile [] (key "app" "/logs/a.log") []
             0%nat "/logs/b.log" 7%nat oneFollower appLogs);
      try (vm_compute; auto; fail).
    + intros k' v' Hin. by apply elem_of_nil in Hin.
    + apply not_elem_of_nil.
  - apply (checkRename_inverted (world [("/logs/a.txt", (7%nat, 5000))] [] (inr 0))
             [] (key "app" "/logs/a.log") [] 0%nat "/logs/a.txt" 7%nat oneFollower
             appLogs);
      try (vm_compute; auto; fail).
    + intros k' v' Hin. by apply elem_of_nil in Hin.
    + apply not_elem_of_nil.
Defined.

(** The same rename seen from [NewFollower]: the follower of the renamed
    file is closed, its key and cell are dropped, and since no rename is
    reported a new follower is started on b.log with a fresh cell at 0. *)
Example NewFollower_after_rename :
  ∃ s', NewFollower renamedFile [key "app" "/logs/a.log"] "/logs/b.log" oneFollower
        = Ret None s'
        ∧ trace s' = [EvClose 0%nat; EvNew 2%nat; EvStart 2%nat]
        ∧ fl_lookup s' (key "app" "/logs/b.log") = Some 2%nat
        ∧ state (getf s' 2%nat) = Some 1%nat
        ∧ load s' 1 = 0.
Proof. eexists. split; [vm_compute; reflexivity|]. by vm_compute. Qed.

(** ** Shutdown *)

Lemma string_app_assoc (a b c : string) : ((a ++ b) ++ c = a ++ b ++ c)%string.
Proof.
  induction a as [|x a IH]; [done|].
  change (String x ((a ++ b) ++ c) = String x (a ++ b ++ c))%string. by rewrite IH.
Qed.

Lemma concat_cons sep (a : string) (l : list string) :
  l ≠ [] → String.concat sep (a :: l) = (a ++ sep ++ String.concat sep l)%string.
Proof. by destruct l. Qed.

(** Folding [appendErr] from the left builds the joined message. *)
Lemma appendErr_fold (errs : list error) (acc : error) :
  fold_left (fun a e => appendErr a (Some e)) errs (Some acc)
  = Some (String.concat " : " (acc :: errs)).
Proof.
  revert acc. induction errs as [|e errs IH]; intros acc; [done|].
  simpl fold_left. rewrite IH. f_equal.
  rewrite (concat_cons _ acc (e :: errs)); [|done].
  destruct errs as [|e' errs]; simpl; [done|].
  by rewrite !string_app_assoc.
Qed.

Lemma appendErr_merged (errs : list error) :
  fold_left (fun a e => appendErr a (Some e)) errs None = merged_errors errs.
Proof. destruct errs as [|e errs]; [done|]. simpl. apply appendErr_fold. Qed.

Lemma emit_all_nil s : emit_all [] s = s.
Proof. destruct s. unfold emit_all; simpl. by rewrite app_nil_r. Qed.

Lemma emit_emit_all e es s : emit_all es (emit e s) = emit_all (e :: es) s.
Proof. unfold emit_all, emit; simpl. by rewrite <- app_assoc. Qed.

(** The loop of [Close] calls [Close] on every follower it visits and folds
    the failures with [appendErr]; nothing else changes. *)
Lemma closeLoop_spec E order err s :
  closeLoop E order err s =
  (fold_left (fun a e => appendErr a (Some e))
             (omap (Close_err E) (visited s order)) err,
   emit_all (EvClose <$> visited s order) s).
Proof.
  revert err s. induction order as [|k order IH]; intros err s; simpl.
  - by rewrite emit_all_nil.
  - unfold visited. simpl. destruct (fl_lookup s k) as [v|] eqn:Hk; simpl.
    + unfold follower_Close.
      assert (Hv : visited (emit (EvClose v) s) order = visited s order) by done.
      destruct (Close_err E v) as [lerr|]; rewrite IH, Hv; simpl;
        by rewrite emit_emit_all.
    + apply IH.
Qed.

Lemma elem_of_visited s order k p :
  k ∈ order → fl_lookup s k = Some p → p ∈ visited s order.
Proof. intros Hin Hk. apply list_elem_of_omap. eauto. Qed.

Lemma dumpStates_spec E s :
  (dumpStates E s).1 =
    match stateFout s with
    | None => None
    | Some fd =>
      match Seek_res E fd with
      | inl e => Some e
      | inr n =>
        if decide (n = 0) then
          match Truncate_err E fd with
          | Some e => Some e
          | None => Encode_err E fd
          end
        else Some (ErrFailedSeek E)
      end
    end
  ∧ stateFout (dumpStates E s).2 = stateFout s
  ∧ followers (dumpStates E s).2 = followers s
  ∧ filters (dumpStates E s).2 = filters s
  ∧ ∃ es, trace (dumpStates E s).2 = (trace s ++ es)
          ∧ ∀ p, EvClose p ∉ es.
Proof.
  unfold dumpStates. destruct (stateFout s) as [fd|] eqn:Hfd.
  - destruct (Seek_res E fd) as [e|n].
    { repeat split; try done. exists [EvSeek fd]. split; [done|].
      intros p Hp. by apply list_elem_of_singleton in Hp. }
    destruct (decide (n = 0)).
    + destruct (Truncate_err E fd).
      { repeat split; try done. exists [EvSeek fd; EvTruncate fd]. simpl.
        rewrite <- app_assoc. split; [done|]. intros p Hp.
        repeat (apply elem_of_cons in Hp as [Hp|Hp]; [done|]).
        by apply elem_of_nil in Hp. }
      repeat split; try done. eexists [EvSeek fd; EvTruncate fd; EvEncode fd _].
      simpl. rewrite <- !app_assoc. split; [done|]. intros p Hp.
      repeat (apply elem_of_cons in Hp as [Hp|Hp]; [done|]).
      by apply elem_of_nil in Hp.
    + repeat split; try done. exists [EvSeek fd]. split; [done|].
      intros p Hp. by apply list_elem_of_singleton in Hp.
  - repeat split; try done. exists []. rewrite app_nil_r. split; [done|].
    intros p Hp. by apply elem_of_nil in Hp.
Qed.

Lemma Close_unfold E order s :
  Close E order s =
  let s2 := set_filters [] (set_followers None
              (emit_all (EvClose <$> visited s order) s)) in
  match dumpStates E s2 with
  | (Some e, s3) => (Some e, s3)
  | (None, s3) =>
    match File_Close E (stateFout s3) with
    | Some e => (Some e, emit (EvFileClose (stateFout s3)) s3)
    | None => (merged_errors (omap (Close_err E) (visited s order)),
               set_stateFout None (emit (EvFileClose (stateFout s3)) s3))
    end
  end.
Proof.
  unfold Close. rewrite closeLoop_spec, appendErr_merged. reflexivity.
Qed.

(** C6.  [Close] calls [Close] on every follower of the table, whatever the
    earlier ones answered, and merges the failures in its named result.  It
    returns that merged error only when writing the snapshot and closing the
    store handle succeed.  When the store fails, the early returns
    ([if err := fm.dumpStates(); err != nil { return err }], and the same for
    the handle) return a variable that shadows the named result: the failure
    of the store comes back alone and the merged failures of the followers
    are lost.  The claim says the merged failures are what [Close] returns,
    none being discarded. *)
Theorem Close_merges_unless_store_fails E order s :
  (∀ k, is_Some (fl_lookup s k) → k ∈ order) →
  (∀ k p, fl_lookup s k = Some p → EvClose p ∈ trace (Close E order s).2)
  ∧ (Close E order s).1 =
      match store_failure E (stateFout s) with
      | Some e => Some e
      | None => merged_errors (omap (Close_err E) (visited s order))
      end.
Proof.
  intros Hcover. rewrite Close_unfold. cbv zeta.
  set (s2 := set_filters [] _).
  destruct (dumpStates_spec E s2) as (Hr & Hfd & _ & _ & es & Htr & _).
  assert (Hfd2 : stateFout s2 = stateFout s) by done.
  assert (Hclosed : ∀ k p, fl_lookup s k = Some p →
            EvClose p ∈ trace (dumpStates E s2).2).
  { intros k p Hk. rewrite Htr. apply elem_of_app. left.
    unfold s2; simpl. apply elem_of_app. right.
    apply list_elem_of_fmap. exists p. split; [done|].
    eapply elem_of_visited; [|done]. apply Hcover. by rewrite Hk. }
  rewrite Hfd2 in Hr.
  destruct (dumpStates E s2) as [r s3] eqn:Hd. simpl in *.
  clear Hfd2. rewrite Hfd. unfold store_failure.
  destruct (stateFout s) as [fd|]; simpl.
  - destruct (Seek_res E fd) as [e|n]; [subst r; split; [exact Hclosed|done]|].
    destruct (decide (n = 0)); [|subst r; split; [exact Hclosed|done]].
    destruct (Truncate_err E fd); [subst r; split; [exact Hclosed|done]|].
    destruct (Encode_err E fd); subst r; [split; [exact Hclosed|done]|].
    destruct (FileClose_err E fd); simpl.
    + split; [|done]. intros k p Hk. apply elem_of_app. left. eauto.
    + split; [|done]. intros k p Hk. apply elem_of_app. left. eauto.
  - subst r. simpl. split; [|done].
    intros k p Hk. apply elem_of_app. left. eauto.
Qed.

(** The failing input of C6: both followers fail to close.  With a healthy
    store the two failures come back merged; when the state file cannot be
    rewound, both followers are still closed but only the failure of the
    store comes back. *)
Lemma Close_merges_witness :
  ((∀ k p, fl_lookup twoFollowers k = Some p →
      EvClose p ∈ trace (Close (world [] [(0%nat, "e0"); (1%nat, "e1")] (inr 0))
                           twoKeys twoFollowers).2)
   ∧ (Close (world [] [(0%nat, "e0"); (1%nat, "e1")] (inr 0)) twoKeys twoFollowers).1
     = Some "e0 : e1")
  ∧ ((∀ k p, fl_lookup twoFollowers k = Some p →
        EvClose p ∈ trace (Close (world [] [(0%nat, "e0"); (1%nat, "e1")]
                                    (inl "seek failed")) twoKeys twoFollowers).2)
     ∧ (Close (world [] [(0%nat, "e0"); (1%nat, "e1")] (inl "seek failed"))
          twoKeys twoFollowers).1
       = Some "seek failed").
Proof.
  split.
  - apply (Close_merges_unless_store_fails
             (world [] [(0%nat, "e0"); (1%nat, "e1")] (inr 0)) twoKeys twoFollowers).
    intros k [p Hk]. enum_followers Hk; set_solver.
  - apply (Close_merges_unless_store_fails
             (world [] [(0%nat, "e0"); (1%nat, "e1")] (inl "seek failed"))
             twoKeys twoFollowers).
    intros k [p Hk]. enum_followers Hk; set_solver.
Defined.

(** C6 as stated fails: both followers fail to close and the store cannot be
    rewound; [Close] answers the failure of the store alone. *)
Lemma Close_drops_follower_errors :
  ¬ Close_returns_merged (world [] [(0%nat, "e0"); (1%nat, "e1")] (inl "seek failed"))
      twoKeys twoFollowers.
Proof. vm_compute. discriminate. Qed.

(** ** Calling [Close] again *)

Lemma Close_unset E order s :
  followers (Close E order s).2 = None ∧ filters (Close E order s).2 = [].
Proof.
  rewrite Close_unfold. cbv zeta. set (s2 := set_filters [] _).
  destruct (dumpStates_spec E s2) as (_ & _ & Hfl & Hfs & _).
  destruct (dumpStates E s2) as [[e|] s3]; simpl in *; [done|].
  by destruct (File_Close E (stateFout s3)).
Qed.

(** C4.  Once a call of [Close] has released the store handle, the next
    call does call [Close] on the nil handle and returns the error of that
    call: [dumpStates] tests the handle for nil, [Close] does not.  The claim
    says the second call is a no-op that returns no error. *)
Theorem Close_again_fails E order order' s :
  stateFout (Close E order s).2 = None →
  Close E order' (Close E order s).2
  = (Some ErrInvalid, emit (EvFileClose None) (Close E order s).2).
Proof.
  destruct (Close_unset E order s) as [Hfl Hfs].
  destruct (Close E order s).2 as [fs fl sts sf fo ob ce nx tr]. simpl in *.
  intros ->. subst fs fl. rewrite Close_unfold.
  assert (Hv : visited (mkFM [] None sts sf None ob ce nx tr) order' = []).
  { unfold visited. induction order' as [|k o IH]; [done|]. simpl. exact IH. }
  rewrite Hv. simpl. unfold emit_all, set_filters, set_followers, dumpStates; simpl.
  by rewrite app_nil_r.
Qed.

(** The failing input of C4: a manager with one follower is closed, without
    error, and closed again. *)
Lemma Close_again_witness :
  (Close (world [] [] (inr 0)) [key "app" "/logs/a.log"]
     oneFollower).1 = None
  ∧ (Close (world [] [] (inr 0)) []
       (Close (world [] [] (inr 0)) [key "app" "/logs/a.log"]
          oneFollower).2).1
    = Some "invalid argument".
Proof.
  split; [vm_compute; reflexivity|].
  rewrite (Close_again_fails (world [] [] (inr 0)) [key "app" "/logs/a.log"] []
             oneFollower);
    [reflexivity | vm_compute; reflexivity].
Defined.

(** ** Removal *)

Lemma removeLoop_through E fpath fs :
  ∀ s, ∃ done post,
    fs = done ++ post
    ∧ removed_through E fpath s done post (removeLoop E fs fpath s).
Proof.
  induction fs as [|v fs IH]; intros s.
  { exists [], []. split; [done|]. unfold removed_through; simpl.
    split; [|split; [|split]]; [|done| |done].
    - intros ?? Hin. by apply elem_of_nil in Hin.
    - intros q. split; [by left|]. intros [?|(? & Hin & _)]; [done|].
      by apply elem_of_nil in Hin. }
  simpl. fold (key (bname v) fpath).
  remember (key (bname v) fpath) as k0 eqn:Hk0.
  destruct (fl_lookup s k0) as [fl|] eqn:Hk.
  - unfold follower_Close. remember (emit (EvClose fl) (st_delete k0 (fl_delete k0 s))) as s2 eqn:Hs2.
    assert (Hfl2 : ∀ k, fl_lookup s2 k = if decide (k0 = k) then None else fl_lookup s k).
    { intros k. rewrite Hs2. apply (fl_lookup_delete k0 k s). }
    assert (Hst2 : ∀ k, states s2 !! k = if decide (k0 = k) then None else states s !! k).
    { intros k. rewrite Hs2. simpl. apply lookup_delete. }
    assert (Htr2 : trace s2 = trace s ++ [EvClose fl]) by (by rewrite Hs2).
    destruct (Close_err E fl) as [e|] eqn:Hc.
    + exists [v], fs. split; [done|]. unfold removed_through; simpl.
      split; [|split; [|split]].
      * intros u p ->%list_elem_of_singleton Hp. rewrite <- Hk0.
        by rewrite Hfl2, Hst2, !decide_True.
      * intros k Hne.
        assert (k0 ≠ k).
        { intros <-. specialize (Hne v (list_elem_of_here _ _) Hk0). congruence. }
        by rewrite Hfl2, Hst2, !decide_False.
      * intros q. rewrite Htr2, elem_of_app, list_elem_of_singleton. split.
        -- intros [?|[= ->]]; [by left|]. right. exists v. rewrite <- Hk0.
           split; [apply list_elem_of_here|done].
        -- intros [?|(u & ->%list_elem_of_singleton & Hu)]; [by left|].
           right. rewrite <- Hk0 in Hu. congruence.
      * exists [], v, fl. by rewrite <- Hk0.
    + destruct (IH s2) as (done & post & Hfs & H1 & H2 & H3 & H4).
      exists (v :: done), post. split; [by rewrite Hfs|].
      remember (removeLoop E fs fpath s2) as res eqn:Hres.
      split; [|split; [|split]].
      * intros u p Hu Hp.
        destruct (decide (k0 = key (bname u) fpath)) as [Heq|Hne].
        -- rewrite <- Heq. destruct (H2 k0) as [-> ->].
           { intros w _ _. by rewrite Hfl2, decide_True. }
           by rewrite Hfl2, Hst2, !decide_True.
        -- apply elem_of_cons in Hu as [->|Hu]; [congruence|].
           apply (H1 u p Hu). by rewrite Hfl2, decide_False.
      * intros k Hk'.
        assert (k0 ≠ k).
        { intros <-. specialize (Hk' v (list_elem_of_here _ _) Hk0). congruence. }
        destruct (H2 k) as [-> ->].
        { intros w Hw Hkw. rewrite Hfl2, decide_False by done.
          apply (Hk' w); [by right|done]. }
        by rewrite Hfl2, Hst2, !decide_False.
      * intros q. rewrite H3, Htr2, elem_of_app, list_elem_of_singleton. split.
        -- intros [[?|[= ->]]|(u & Hu & Hq)].
           ++ by left.
           ++ right. exists v. rewrite <- Hk0. split; [apply list_elem_of_here|done].
           ++ right. exists u. split; [by right|].
              rewrite Hfl2 in Hq. by case_decide.
        -- intros [?|(u & Hu & Hq)]; [by left; left|].
           destruct (decide (k0 = key (bname u) fpath)) as [Heq|Hne].
           ++ left; right. rewrite <- Heq in Hq. congruence.
           ++ apply elem_of_cons in Hu as [->|Hu]; [congruence|].
              right. exists u. split; [done|]. by rewrite Hfl2, decide_False.
      * destruct res.1 as [e|]; [|done].
        destruct H4 as (pre & w & p & -> & Hw & Hp).
        exists (v :: pre), w, p. split; [done|]. split; [|done].
        rewrite Hfl2 in Hw. by case_decide.
  - destruct (IH s) as (done & post & Hfs & H1 & H2 & H3 & H4).
    exists (v :: done), post. split; [by rewrite Hfs|].
    remember (removeLoop E fs fpath s) as res eqn:Hres.
    split; [|split; [|split]].
    + intros u p Hu Hp. apply elem_of_cons in Hu as [->|Hu].
      * rewrite <- Hk0 in Hp. congruence.
      * by apply (H1 u p).
    + intros k Hk'. apply H2. intros w Hw. apply Hk'. by right.
    + intros q. rewrite H3. split.
      * intros [?|(u & Hu & Hq)]; [by left|]. right. exists u. split; [by right|done].
      * intros [?|(u & Hu & Hq)]; [by left|].
        apply elem_of_cons in Hu as [->|Hu].
        -- rewrite <- Hk0 in Hq. congruence.
        -- right. by exists u.
    + destruct res.1 as [e|]; [|done].
      destruct H4 as (pre & w & p & -> & Hw & Hp).
      by exists (v :: pre), w, p.
Qed.

(** Up to the first filter whose follower fails to close, the loop goes on;
    there it returns, whatever filters come after. *)
Lemma removeLoop_first_failure E fpath pre :
  ∀ s v post p e,
  fl_lookup s (key (bname v) fpath) = Some p →
  Close_err E p = Some e →
  (∀ u q, u ∈ pre → fl_lookup s (key (bname u) fpath) = Some q →
     Close_err E q = None) →
  removeLoop E (pre ++ v :: post) fpath s = removeLoop E (pre ++ [v]) fpath s
  ∧ (removeLoop E (pre ++ [v]) fpath s).1 = Some e.
Proof.
  induction pre as [|u pre IH]; intros s v post p e Hv Hp Hpre; simpl.
  { fold (key (bname v) fpath). rewrite Hv. unfold follower_Close. by rewrite Hp. }
  fold (key (bname u) fpath).
  destruct (fl_lookup s (key (bname u) fpath)) as [q|] eqn:Hu.
  - unfold follower_Close. rewrite (Hpre u q (list_elem_of_here _ _) Hu).
    assert (Hne : key (bname u) fpath ≠ key (bname v) fpath).
    { intros Heq. rewrite Heq in Hu.
      pose proof (Hpre u p (list_elem_of_here _ _)) as Hc.
      rewrite Heq in Hc. specialize (Hc Hv). congruence. }
    set (s2 := emit (EvClose q) _).
    assert (Hfl2 : ∀ k, fl_lookup s2 k
                        = if decide (key (bname u) fpath = k) then None
                          else fl_lookup s k).
    { intros k. apply (fl_lookup_delete (key (bname u) fpath) k s). }
    apply (IH s2 v post p e).
    + by rewrite Hfl2, decide_False.
    + done.
    + intros w q' Hw Hq'. rewrite Hfl2 in Hq'. case_decide; [done|].
      apply (Hpre w q'); [by right|done].
  - apply (IH s v post p e); [done|done|].
    intros w q' Hw. apply Hpre. by right.
Qed.

(** C8, amended.  [RemoveFollower] goes through the filters in registry
    order.  For each filter with a follower at (filter name, path) it takes
    the follower and its cell out of the tables and closes it.  When no close
    fails it returns nil and every follower at that path, under every filter,
    is torn down.  When the follower of the filter [v] is the first whose
    close fails, it returns that failure at once: the followers of the
    filters up to [v] are out of both tables and closed, and the followers
    registered under the filters [post] after [v] stay in the tables and are
    not closed. *)
Theorem RemoveFollower_until_first_failure E fpath s :
  ((∀ v p, v ∈ filters s → fl_lookup s (key (bname v) fpath) = Some p →
      Close_err E p = None) →
   (RemoveFollower E fpath s).1 = None
   ∧ removed_through E fpath s (filters s) [] (RemoveFollower E fpath s)
   ∧ RemoveFollower_tears_down_all E fpath s)
  ∧ (∀ pre v post p e,
       filters s = pre ++ v :: post →
       fl_lookup s (key (bname v) fpath) = Some p →
       Close_err E p = Some e →
       (∀ u q, u ∈ pre → fl_lookup s (key (bname u) fpath) = Some q →
          Close_err E q = None) →
       (RemoveFollower E fpath s).1 = Some e
       ∧ removed_through E fpath s (pre ++ [v]) post (RemoveFollower E fpath s)
       ∧ (∀ u q, u ∈ post →
            (∀ w, w ∈ pre ++ [v] → bname w ≠ bname u) →
            fl_lookup s (key (bname u) fpath) = Some q →
            fl_lookup (RemoveFollower E fpath s).2 (key (bname u) fpath) = Some q
            ∧ states (RemoveFollower E fpath s).2 !! key (bname u) fpath
              = states s !! key (bname u) fpath
            ∧ (EvClose q ∈ trace (RemoveFollower E fpath s).2 →
               EvClose q ∈ trace s
               ∨ ∃ w, w ∈ pre ++ [v]
                      ∧ fl_lookup s (key (bname w) fpath) = Some q))).
Proof.
  unfold RemoveFollower_tears_down_all, RemoveFollower, nolockRemoveFollower.
  split.
  - intros Hok.
    destruct (removeLoop_through E fpath (filters s) s)
      as (done & post & Hfs & H1 & H2 & H3 & H4).
    destruct (removeLoop E (filters s) fpath s).1 as [e|] eqn:Hr.
    + exfalso. destruct H4 as (pre & w & p & -> & Hw & Hp).
      rewrite (Hok w p) in Hp; [done| |done].
      rewrite Hfs. apply elem_of_app. left. apply elem_of_app. right.
      apply list_elem_of_here.
    + subst post. rewrite app_nil_r in Hfs. subst done.
      split; [done|]. split.
      { unfold removed_through. rewrite Hr. done. }
      intros v p Hv Hp.
      destruct (H1 v p Hv Hp) as [-> ->]. split; [done|]. split; [done|].
      apply H3. right. by exists v.
  - intros pre v post p e Hfs Hv Hp Hpre. rewrite Hfs.
    destruct (removeLoop_first_failure E fpath pre s v post p e Hv Hp Hpre)
      as [-> Hres].
    destruct (removeLoop_through E fpath (pre ++ [v]) s)
      as (done & post' & Hsplit & H1 & H2 & H3 & H4).
    rewrite Hres in H4.
    assert (Hdone : done = pre ++ [v]).
    { destruct H4 as (pre' & w & p' & -> & Hw & Hp').
      destruct (decide (post' = [])) as [->|Hne].
      { by rewrite app_nil_r in Hsplit. }
      exfalso.
      destruct (exists_last Hne) as (post'' & x & ->).
      rewrite !app_assoc in Hsplit. apply app_inj_tail in Hsplit as [Hpre' _].
      rewrite (Hpre w p') in Hp'; [done| |done].
      rewrite Hpre'. apply elem_of_app. left. apply elem_of_app. right.
      apply list_elem_of_here. }
    subst done.
    split; [done|]. split.
    { unfold removed_through. rewrite Hres. done. }
    intros u q Hu Hnames Hq.
    assert (Hkeep : ∀ w, w ∈ pre ++ [v] →
              key (bname u) fpath = key (bname w) fpath →
              fl_lookup s (key (bname u) fpath) = None).
    { intros w Hw [= Hb]. exfalso. by apply (Hnames w). }
    destruct (H2 (key (bname u) fpath) Hkeep) as [-> ->].
    split; [done|]. split; [done|]. intros Hc. by apply H3.
Qed.

(** The path is followed under both filters and the close of the first
    follower fails: that failure is returned, the first key is out of both
    tables, and the second follower is still registered, with its cell, and
    was not closed. *)
Lemma RemoveFollower_until_first_failure_witness :
  (RemoveFollower (world [] [(0%nat, "e0")] (inr 0)) "/logs/a.log" twoFollowers).1
  = Some "e0"
  ∧ removed_through (world [] [(0%nat, "e0")] (inr 0)) "/logs/a.log" twoFollowers
      ([] ++ [appLogs]) [sysLogs]
      (RemoveFollower (world [] [(0%nat, "e0")] (inr 0)) "/logs/a.log" twoFollowers)
  ∧ (∀ u q, u ∈ [sysLogs] →
       (∀ w, w ∈ [] ++ [appLogs] → bname w ≠ bname u) →
       fl_lookup twoFollowers (key (bname u) "/logs/a.log") = Some q →
       fl_lookup (RemoveFollower (world [] [(0%nat, "e0")] (inr 0)) "/logs/a.log"
                    twoFollowers).2 (key (bname u) "/logs/a.log") = Some q
       ∧ states (RemoveFollower (world [] [(0%nat, "e0")] (inr 0)) "/logs/a.log"
                   twoFollowers).2 !! key (bname u) "/logs/a.log"
         = states twoFollowers !! key (bname u) "/logs/a.log"
       ∧ (EvClose q ∈ trace (RemoveFollower (world [] [(0%nat, "e0")] (inr 0))
                               "/logs/a.log" twoFollowers).2 →
          EvClose q ∈ trace twoFollowers
          ∨ ∃ w, w ∈ [] ++ [appLogs]
                 ∧ fl_lookup twoFollowers (key (bname w) "/logs/a.log") = Some q)).
Proof.
  apply (proj2 (RemoveFollower_until_first_failure
                  (world [] [(0%nat, "e0")] (inr 0)) "/logs/a.log" twoFollowers)
           [] appLogs [sysLogs] 0%nat "e0"); try (vm_compute; reflexivity).
  intros u q Hu. by apply elem_of_nil in Hu.
Defined.

(** C8 as stated fails: the path is followed under both filters and the
    close of the first follower fails; the second follower stays in the
    table, with its cell, and is not closed. *)
Lemma RemoveFollower_stops_at_failure :
  ¬ RemoveFollower_tears_down_all (world [] [(0%nat, "e0")] (inr 0))
      "/logs/a.log" twoFollowers.
Proof.
  intros H. destruct (H sysLogs 1%nat) as [Hgone _].
  - apply elem_of_cons. right. apply list_elem_of_here.
  - vm_compute. reflexivity.
  - vm_compute in Hgone. discriminate.
Qed.

(** ** Sanitation of the loaded states *)

Lemma rd_insert h c z c' :
  rd (<[c := z]> h) c' = if decide (c = c') then z else rd h c'.
Proof. unfold rd. rewrite lookup_insert. by case_decide. Qed.

(** One pass of [cleanStates] over [order], when no [Stat] fails for a
    reason other than the file being absent. *)
Lemma cleanStates_pass E order :
  ∀ m h,
  (∀ k v e, m !! k = Some v → Stat E (FilePath k) ≠ StatErr e) →
  ∃ m' h',
    cleanStates E order m h = (None, m', h')
    ∧ (∀ k, m' !! k =
            if decide (k ∈ order ∧ Stat E (FilePath k) = StatNotExist)
            then None else m !! k)
    ∧ (∀ c, rd h' c = rd h c ∨ rd h' c = 0)
    ∧ (∀ c, rd h' c ≠ rd h c →
         ∃ k size, k ∈ order ∧ m !! k = Some (Some c)
                   ∧ Stat E (FilePath k) = StatOk size ∧ size < rd h c)
    ∧ (∀ k c size, k ∈ order → m !! k = Some (Some c) →
         Stat E (FilePath k) = StatOk size → size < rd h c → rd h' c = 0).
Proof.
  induction order as [|k0 order IH]; intros m h Hstat.
  { exists m, h. split; [done|]. split; [|split; [|split]].
    - intros k. rewrite decide_False; [done|]. intros [Hin _]. by apply elem_of_nil in Hin.
    - by left.
    - done.
    - intros ??? Hin. by apply elem_of_nil in Hin. }
  simpl. destruct (m !! k0) as [v|] eqn:Hk0.
  2: { (* the key is not in the map *)
    destruct (IH m h Hstat) as (m' & h' & Hrun & Ha & Hb & Hc & Hd).
    exists m', h'. split; [done|]. split; [|split; [done|split]].
    - intros k. rewrite Ha. destruct (decide (k = k0)) as [->|Hne].
      + rewrite Hk0. by repeat case_decide.
      + repeat case_decide; try done; set_solver.
    - intros c Hne. destruct (Hc c Hne) as (k & size & ? & ?). exists k, size. set_solver.
    - intros k c size [->|Hin]%elem_of_cons Hk; [congruence|]. by apply Hd. }
  destruct (Stat E (FilePath k0)) as [size0| |e] eqn:Hs0.
  - (* the file is there *)
    assert (Hstep : ∃ h1, (match v with
              | Some c => if decide (size0 < default 0 (h !! c))
                          then cleanStates E order m (<[c := 0]> h)
                          else cleanStates E order m h
              | None => cleanStates E order m h
              end = cleanStates E order m h1)
              ∧ (∀ c, rd h1 c = if decide (v = Some c ∧ size0 < rd h c) then 0 else rd h c)).
    { destruct v as [c0|].
      - fold (rd h c0). destruct (decide (size0 < rd h c0)).
        + exists (<[c0 := 0]> h). split; [done|]. intros c. rewrite rd_insert.
          repeat case_decide; naive_solver.
        + exists h. split; [done|]. intros c. rewrite decide_False; naive_solver.
      - exists h. split; [done|]. intros c. rewrite decide_False; naive_solver. }
    destruct Hstep as (h1 & -> & Hh1).
    destruct (IH m h1 Hstat) as (m' & h' & Hrun & Ha & Hb & Hc & Hd).
    exists m', h'. split; [done|]. split; [|split; [|split]].
    + intros k. rewrite Ha. destruct (decide (k = k0)) as [->|Hne].
      * rewrite !decide_False; [done| |]; intros [_ ?]; congruence.
      * repeat case_decide; try done; set_solver.
    + intros c. destruct (Hb c) as [->| ->]; [|by right].
      rewrite Hh1. case_decide; auto.
    + intros c Hne. destruct (decide (v = Some c ∧ size0 < rd h c)) as [[-> Hlt]|Hno].
      * exists k0, size0. set_solver.
      * assert (Heq : rd h1 c = rd h c) by (by rewrite Hh1, decide_False).
        destruct (Hc c) as (k & size & ? & ? & ? & ?); [congruence|].
        exists k, size. rewrite <- Heq. set_solver.
    + intros k c size Hin Hk Hs Hlt.
      destruct (decide (v = Some c ∧ size0 < rd h c)) as [Hyes|Hno].
      * destruct (Hb c) as [->|]; [|done]. by rewrite Hh1, decide_True.
      * assert (Heq : rd h1 c = rd h c) by (by rewrite Hh1, decide_False).
        apply elem_of_cons in Hin as [->|Hin].
        -- exfalso. apply Hno. split; congruence.
        -- apply (Hd k c size); try done. by rewrite Heq.
  - (* the file is gone *)
    destruct (IH (delete k0 m) h) as (m' & h' & Hrun & Ha & Hb & Hc & Hd).
    { intros k v' e [_ Hk]%lookup_delete_Some. by eapply Hstat. }
    exists m', h'. split; [done|]. split; [|split; [done|split]].
    + intros k. rewrite Ha, lookup_delete. destruct (decide (k = k0)) as [->|Hne].
      * rewrite (decide_True (P := k0 = k0)) by done.
        rewrite (decide_True (P := k0 ∈ k0 :: order ∧ _)); [by case_decide|].
        split; [apply list_elem_of_here|done].
      * rewrite (decide_False (P := k0 = k)) by done.
        repeat case_decide; try done; set_solver.
    + intros c Hne. destruct (Hc c Hne) as (k & size & ? & [_ ?]%lookup_delete_Some & ?).
      exists k, size. set_solver.
    + intros k c size Hin Hk Hs Hlt. apply elem_of_cons in Hin as [->|Hin]; [congruence|].
      apply (Hd k c size); try done. apply lookup_delete_Some. split; [|done].
      intros <-. congruence.
  - by destruct (Hstat k0 v e Hk0).
Qed.

(** A [Stat] that fails for another reason, on a key of the map that is
    visited, makes [cleanStates] return an error. *)
Lemma cleanStates_hard_error E order :
  ∀ m h k v e,
  k ∈ order → m !! k = Some v → Stat E (FilePath k) = StatErr e →
  (cleanStates E order m h).1.1 ≠ None.
Proof.
  induction order as [|k0 order IH]; intros m h k v e Hin Hk Hs.
  { by apply elem_of_nil in Hin. }
  simpl. destruct (m !! k0) as [v0|] eqn:Hk0.
  2: { apply elem_of_cons in Hin as [->|Hin]; [congruence|]. by eapply IH. }
  destruct (Stat E (FilePath k0)) as [size0| |e0] eqn:Hs0; [| |done].
  - apply elem_of_cons in Hin as [->|Hin]; [congruence|].
    destruct v0 as [c|]; [case_decide|]; by eapply IH.
  - apply elem_of_cons in Hin as [->|Hin]; [congruence|].
    eapply IH; [done| |done]. apply lookup_delete_Some. split; [|done].
    intros <-. congruence.
Qed.

(** C7.  When sanitation returns without error, for every loaded key: the
    entry is removed if the file no longer exists; the offset is reset to 0
    if the file exists with a size strictly smaller than the recorded
    offset; otherwise the entry and the value of its offset are as they
    were.  Keys that were not loaded are not added. *)
Theorem cleanStates_sanitizes E order m h :
  (∀ k, is_Some (m !! k) → k ∈ order) →
  separate m →
  (cleanStates E order m h).1.1 = None →
  (∀ k, m !! k = None → (cleanStates E order m h).1.2 !! k = None)
  ∧ ∀ k v, m !! k = Some v →
      match Stat E (FilePath k) with
      | StatNotExist => (cleanStates E order m h).1.2 !! k = None
      | StatOk size =>
        (cleanStates E order m h).1.2 !! k = Some v
        ∧ ∀ c, v = Some c →
            rd (cleanStates E order m h).2 c
            = if decide (size < rd h c) then 0 else rd h c
      | StatErr _ => False
      end.
Proof.
  intros Hcover Hsep Hok.
  assert (Hstat : ∀ k v e, m !! k = Some v → Stat E (FilePath k) ≠ StatErr e).
  { intros k v e Hk Hs. apply (cleanStates_hard_error E order m h k v e); try done.
    apply Hcover. by rewrite Hk. }
  destruct (cleanStates_pass E order m h Hstat) as (m' & h' & Hrun & Ha & Hb & Hc & Hd).
  rewrite Hrun. simpl. split.
  { intros k Hk. rewrite Ha, Hk. by case_decide. }
  intros k v Hk.
  assert (Hin : k ∈ order) by (apply Hcover; by rewrite Hk).
  destruct (Stat E (FilePath k)) as [size| |e] eqn:Hs.
  - split.
    + rewrite Ha, decide_False; [done|]. intros [_ ?]; congruence.
    + intros c ->. case_decide as Hlt.
      * by apply (Hd k c size).
      * destruct (decide (rd h' c = rd h c)) as [|Hne]; [done|].
        destruct (Hc c Hne) as (k' & size' & _ & Hk' & Hs' & Hlt').
        rewrite (Hsep k' k c Hk' Hk) in Hs'. congruence.
  - rewrite Ha, decide_True; done.
  - by apply (Hstat k v e).
Qed.

(** gone.log is dropped, the offset of a.log (4096, size 10) is reset, the
    offset of b.log (100, size 500) is kept. *)
Lemma cleanStates_sanitizes_witness :
  (cleanStates diskNow loadedKeys loadedStates loadedCells).1.2
     !! key "app" "/logs/gone.log" = None
  ∧ ((cleanStates diskNow loadedKeys loadedStates loadedCells).1.2
       !! key "app" "/logs/a.log" = Some (Some 0%nat)
     ∧ rd (cleanStates diskNow loadedKeys loadedStates loadedCells).2 0 = 0)
  ∧ ((cleanStates diskNow loadedKeys loadedStates loadedCells).1.2
       !! key "app" "/logs/b.log" = Some (Some 1%nat)
     ∧ rd (cleanStates diskNow loadedKeys loadedStates loadedCells).2 1 = 100).
Proof.
  destruct (cleanStates_sanitizes diskNow loadedKeys loadedStates loadedCells)
    as [_ Hpost].
  - intros k [v Hk]. enum Hk; set_solver.
  - intros k1 k2 c H1 H2. enum H1; enum H2; done.
  - vm_compute. reflexivity.
  - pose proof (Hpost (key "app" "/logs/gone.log") (Some 2%nat) eq_refl) as Hg.
    pose proof (Hpost (key "app" "/logs/a.log") (Some 0%nat) eq_refl) as [Ha1 Ha2].
    pose proof (Hpost (key "app" "/logs/b.log") (Some 1%nat) eq_refl) as [Hb1 Hb2].
    split; [exact Hg|]. split; (split; [assumption|]).
    + exact (Ha2 0%nat eq_refl).
    + exact (Hb2 1%nat eq_refl).
Defined.

(** ** Follower creation on an occupied key *)




(** The same seen from [LoadFile]: the follower of the new file is started
    on the cell of the old one, at the old offset. *)
Example LoadFile_replaced_file :
  ∃ s', LoadFile replacedFile [key "app" "/logs/a.log"] "/logs/a.log" oneFollower
        = Ret None s'
        ∧ trace s' = [EvClose 0%nat; EvNew 1%nat; EvStart 1%nat]
        ∧ fl_lookup s' (key "app" "/logs/a.log") = Some 1%nat
        ∧ getf s' 1%nat = mkFollower (key "app" "/logs/a.log") 9%nat 0 (Some 0%nat)
        ∧ load s' 0 = 4096.
Proof. eexists. split; [vm_compute; reflexivity|]. by vm_compute. Qed.

(** ** Explicit rename notification *)

(** What the walk found is a regular file of the walk that the patterns
    match and whose identity is the one searched. *)
Lemma findLoop_found E es ms id p0 p :
  findLoop E es ms id p0 false = (p, true, None) →
  ∃ e, e ∈ es ∧ wpath e = p ∧ wregular e = true
       ∧ matchFile E ms (Base E p) = true
       ∧ getFileIdFromName E p = inr id.
Proof.
  induction es as [|e es IH]; simpl; [done|].
  destruct (wregular e) eqn:Hreg; simpl.
  2: { intros (e' & ? & ?)%IH. exists e'. split; [by right|done]. }
  destruct (matchFile E ms (Base E (wpath e))) eqn:Hm.
  2: { intros (e' & ? & ?)%IH. exists e'. split; [by right|done]. }
  destruct (getFileIdFromName E (wpath e)) as [err|lid] eqn:Hid; [done|].
  case_decide as Hlid.
  2: { intros (e' & ? & ?)%IH. exists e'. split; [by right|done]. }
  subst lid. intros Hrest. exists e.
  assert (Hp : p = wpath e).
  { clear -Hrest. revert Hrest. generalize (wpath e) as q.
    induction es as [|e' es IH]; simpl; intros q; [congruence|].
    rewrite orb_true_r. apply IH. }
  subst p. split; [apply list_elem_of_here|done].
Qed.

(** Filters without a follower at the old path, or in whose directory the
    identity is not found, are passed over. *)
Lemma renameLoop_skip E pre rest i fpath id s :
  (∀ u, u ∈ pre →
     fl_lookup s (key (bname u) fpath) = None
     ∨ ∃ q, findFileId E (loc u) (mtchs u) id = (q, false, None)) →
  renameLoop E (pre ++ rest) i fpath id s
  = renameLoop E rest (i + Z.of_nat (length pre)) fpath id s.
Proof.
  revert i. induction pre as [|u pre IH]; intros i Hpre; simpl.
  { by rewrite Z.add_0_r. }
  assert (Hrest : renameLoop E (pre ++ rest) (i + 1) fpath id s
                  = renameLoop E rest (i + Z.pos (Pos.of_succ_nat (length pre))) fpath id s).
  { rewrite IH; [f_equal; lia|]. intros w Hw. apply Hpre. by right. }
  fold (key (bname u) fpath).
  destruct (Hpre u (list_elem_of_here _ _)) as [Hno|[q Hq]].
  - by rewrite Hno.
  - rewrite Hq. by destruct (fl_lookup s (key (bname u) fpath)).
Qed.

Lemma key_path_ne bn p q : p ≠ q → key bn p ≠ key bn q.
Proof. intros Hne [= ?]. done. Qed.

(** C3.  [RenameFollower] when the file is found, under a new name, by the
    filter the follower was created for.  The follower and its cell are
    registered under the new key, the old key leaves the follower table, no
    cell changes and the follower is neither closed nor restarted.  But the
    old key stays in the state map, still pointing at the cell, and the
    follower object records the old path: [flw.FileName = stid] runs before
    [stid.FilePath = p], and the state map is never told to forget the old
    key.  The claim says the old key is absent from both tables and the
    follower records the new path. *)
Theorem RenameFollower_same_filter E order fpath s id pre v post flw p st :
  findId order fpath s None = Some id →
  filters s = pre ++ v :: post →
  (∀ u, u ∈ pre →
     fl_lookup s (key (bname u) fpath) = None
     ∨ ∃ q, findFileId E (loc u) (mtchs u) id = (q, false, None)) →
  fl_lookup s (key (bname v) fpath) = Some flw →
  findFileId E (loc v) (mtchs v) id = (p, true, None) →
  p ≠ fpath →
  filterId (getf s flw) = Z.of_nat (length pre) →
  states s !! key (bname v) fpath = Some st →
  ∃ s',
    RenameFollower E order fpath s = Ret None s'
    ∧ fl_lookup s' (key (bname v) p) = Some flw
    ∧ states s' !! key (bname v) p = Some st
    ∧ fl_lookup s' (key (bname v) fpath) = None
    ∧ cells s' = cells s
    ∧ trace s' = trace s
    ∧ states s' !! key (bname v) fpath = Some st
    ∧ fileName (getf s' flw) = key (bname v) fpath.
Proof.
  intros Hid Hfs Hpre Hk Hfind Hp Hfid Hst.
  unfold RenameFollower. rewrite Hid, Hfs, renameLoop_skip by done.
  simpl. fold (key (bname v) fpath) (key (bname v) p).
  rewrite Hk, Hfind, decide_False, decide_True, Hst by done.
  pose proof (key_path_ne (bname v) p fpath Hp) as Hne.
  unfold fl_lookup in Hk. destruct (followers s) as [m|] eqn:Hm; [|done].
  unfold fl_insert. simpl. rewrite Hm. simpl.
  eexists. split; [reflexivity|]. unfold fl_lookup, getf. simpl.
  rewrite !lookup_insert_eq, lookup_insert_ne, lookup_insert_ne, lookup_delete_eq
    by done.
  done.
Qed.

(** The failing input of C3: a.log, followed at offset 4096, was renamed to
    b.log. *)
Lemma RenameFollower_same_filter_witness :
  ∃ s',
    RenameFollower renamedFile [key "app" "/logs/a.log"] "/logs/a.log" oneFollower
    = Ret None s'
    ∧ fl_lookup s' (key "app" "/logs/b.log") = Some 0%nat
    ∧ states s' !! key "app" "/logs/b.log" = Some (Some 0%nat)
    ∧ fl_lookup s' (key "app" "/logs/a.log") = None
    ∧ cells s' = cells oneFollower
    ∧ trace s' = trace oneFollower
    ∧ states s' !! key "app" "/logs/a.log" = Some (Some 0%nat)
    ∧ fileName (getf s' 0%nat) = key "app" "/logs/a.log".
Proof.
  apply (RenameFollower_same_filter renamedFile [key "app" "/logs/a.log"]
           "/logs/a.log" oneFollower 7%nat [] appLogs [] 0%nat "/logs/b.log"
           (Some 0%nat)); try (vm_compute; reflexivity).
  - intros u Hu. by apply elem_of_nil in Hu.
  - discriminate.
Defined.

(** C5, amended.  [RenameFollower] when the file is found, under a new
    name, by a filter whose index is not the filter id of the follower.
    When the old key has no entry in the state map, the old follower is
    closed, taken out of the follower table, and an error is returned.  When
    it has a cell, the old key is taken out of both tables and the old
    follower is closed.  If that close fails, its error is returned: no cell
    has changed and nothing is constructed.  Otherwise the cell is set to 0
    and [addFollower] is called for (the name of that filter, the new path)
    with that cell and the index of that filter, and its outcome is returned;
    when the new key is free and the new follower is constructed and started
    without error, it is registered under the new key, records the identity
    searched and the index of that filter and references the zeroed cell. *)
Theorem RenameFollower_other_filter E order fpath s id pre v post flw p :
  findId order fpath s None = Some id →
  filters s = pre ++ v :: post →
  (∀ u, u ∈ pre →
     fl_lookup s (key (bname u) fpath) = None
     ∨ ∃ q, findFileId E (loc u) (mtchs u) id = (q, false, None)) →
  fl_lookup s (key (bname v) fpath) = Some flw →
  findFileId E (loc v) (mtchs v) id = (p, true, None) →
  p ≠ fpath →
  filterId (getf s flw) ≠ Z.of_nat (length pre) →
  (states s !! key (bname v) fpath = None →
     ∃ s', RenameFollower E order fpath s = Ret (Some "Failed to find old state") s'
       ∧ trace s' = trace s ++ [EvClose flw]
       ∧ fl_lookup s' (key (bname v) fpath) = None
       ∧ (∀ k, k ≠ key (bname v) fpath → fl_lookup s' k = fl_lookup s k)
       ∧ states s' = states s
       ∧ cells s' = cells s)
  ∧ (∀ c, states s !! key (bname v) fpath = Some (Some c) →
       ∃ s1,
         trace s1 = trace s ++ [EvClose flw]
         ∧ fl_lookup s1 (key (bname v) fpath) = None
         ∧ (∀ k, k ≠ key (bname v) fpath → fl_lookup s1 k = fl_lookup s k)
         ∧ states s1 = delete (key (bname v) fpath) (states s)
         ∧ objs s1 = objs s
         ∧ next s1 = next s
         ∧ match Close_err E flw with
           | Some e =>
             cells s1 = cells s
             ∧ RenameFollower E order fpath s = Ret (Some e) s1
           | None =>
             cells s1 = <[c := 0]> (cells s)
             ∧ RenameFollower E order fpath s
               = addFollower E (bname v) p (Some c) (Z.of_nat (length pre)) (lh v) s1
             ∧ (fl_lookup s (key (bname v) p) = None →
                New_err E (key (bname v) p) = None →
                Start_err E (key (bname v) p) = None →
                ∃ s',
                  RenameFollower E order fpath s = Ret None s'
                  ∧ trace s' = trace s ++ [EvClose flw; EvNew (next s); EvStart (next s)]
                  ∧ load s' c = 0
                  ∧ fl_lookup s' (key (bname v) p) = Some (next s)
                  ∧ getf s' (next s)
                    = mkFollower (key (bname v) p) id (Z.of_nat (length pre)) (Some c)
                  ∧ fl_lookup s' (key (bname v) fpath) = None
                  ∧ states s' !! key (bname v) fpath = None)
           end).
Proof.
  intros Hid Hfs Hpre Hk Hfind Hp Hfid.
  destruct (findLoop_found E _ _ _ _ _ Hfind) as (_ & _ & _ & _ & _ & Hpid).
  unfold RenameFollower. rewrite Hid, Hfs, renameLoop_skip by done.
  simpl. fold (key (bname v) fpath) (key (bname v) p).
  rewrite Hk, Hfind, decide_False, decide_False by done.
  pose proof (key_path_ne (bname v) p fpath Hp) as Hne.
  assert (Hdel : ∀ t k, fl_lookup (fl_delete (key (bname v) fpath) t) k
                        = if decide (key (bname v) fpath = k) then None
                          else fl_lookup t k).
  { intros t k. apply fl_lookup_delete. }
  split.
  - intros Hst. rewrite Hst. eexists. split; [reflexivity|].
    split; [done|]. split; [by rewrite Hdel, decide_True|].
    split; [|done]. intros k Hk'. by rewrite Hdel, decide_False.
  - intros c Hst. rewrite Hst. unfold follower_Close.
    set (s1 := emit (EvClose flw)
                 (st_delete (key (bname v) fpath) (fl_delete (key (bname v) fpath) s))).
    assert (Hfl1 : ∀ k, fl_lookup s1 k
                        = if decide (key (bname v) fpath = k) then None
                          else fl_lookup s k).
    { intros k. apply (Hdel s k). }
    destruct (Close_err E flw) as [e|] eqn:Hclose.
    + exists s1. split; [done|]. split; [by rewrite Hfl1, decide_True|].
      split; [|done]. intros k Hk'. by rewrite Hfl1, decide_False.
    + exists (store c 0 s1). split; [done|].
      split; [by apply (eq_trans (Hfl1 _)), decide_True|].
      split. { intros k Hk'. apply (eq_trans (Hfl1 _)). by rewrite decide_False. }
      do 3 (split; [done|]). split; [done|]. split; [done|].
      intros Hfree Hnew Hstart.
      unfold addFollower. fold (key (bname v) p). rewrite Hpid.
      unfold fl_lookup in Hk, Hfree. destruct (followers s) as [m|] eqn:Hm; [|done].
      simpl in Hk, Hfree.
      unfold fl_lookup at 1. simpl. rewrite Hm. simpl.
      rewrite lookup_delete_ne, Hfree by done.
      unfold NewFollower_ctor. fold (key (bname v) p). rewrite Hnew, Hpid.
      unfold follower_Start, getf. simpl. rewrite lookup_insert_eq. simpl.
      rewrite Hstart. unfold fl_insert. simpl. rewrite Hm. simpl.
      eexists. split; [reflexivity|]. unfold fl_lookup, load. simpl.
      rewrite <- !app_assoc, !lookup_insert_eq, lookup_insert_ne, !lookup_delete_eq
        by done.
      done.
Qed.

(** a.txt, followed at offset 4096 under the second filter named app, was
    renamed to b.log, which the first filter named app matches: once with a
    follower that closes, once with a follower that cannot be closed. *)
Lemma RenameFollower_other_filter_witness :
  (∃ s',
     RenameFollower renamedFile [key "app" "/logs/a.txt"] "/logs/a.txt" txtFollower
     = Ret None s'
     ∧ trace s' = trace txtFollower
                  ++ [EvClose 0%nat; EvNew (next txtFollower); EvStart (next txtFollower)]
     ∧ load s' 0 = 0
     ∧ fl_lookup s' (key "app" "/logs/b.log") = Some (next txtFollower)
     ∧ getf s' (next txtFollower)
       = mkFollower (key "app" "/logs/b.log") 7%nat (Z.of_nat (length (@nil filter)))
                    (Some 0%nat)
     ∧ fl_lookup s' (key "app" "/logs/a.txt") = None
     ∧ states s' !! key "app" "/logs/a.txt" = None)
  ∧ (∃ s1,
       trace s1 = trace txtFollower ++ [EvClose 0%nat]
       ∧ fl_lookup s1 (key "app" "/logs/a.txt") = None
       ∧ (∀ k, k ≠ key "app" "/logs/a.txt" → fl_lookup s1 k = fl_lookup txtFollower k)
       ∧ states s1 = delete (key "app" "/logs/a.txt") (states txtFollower)
       ∧ objs s1 = objs txtFollower
       ∧ next s1 = next txtFollower
       ∧ cells s1 = cells txtFollower
       ∧ RenameFollower busyRename [key "app" "/logs/a.txt"] "/logs/a.txt" txtFollower
         = Ret (Some "busy") s1).
Proof.
  split.
  - destruct (proj2 (RenameFollower_other_filter renamedFile [key "app" "/logs/a.txt"]
             "/logs/a.txt" txtFollower 7%nat [] (mkFilter "app" "/logs" ["*.log"] 0%nat)
             [mkFilter "app" "/logs" ["*.txt"] 1%nat] 0%nat "/logs/b.log"
             eq_refl eq_refl
             (fun u (Hu : u ∈ []) => False_ind _ (not_elem_of_nil u Hu))
             eq_refl eq_refl
             ltac:(discriminate) ltac:(vm_compute; discriminate)) 0%nat eq_refl)
      as (s1 & _ & _ & _ & _ & _ & _ & Hrun).
    exact (proj2 (proj2 Hrun) eq_refl eq_refl eq_refl).
  - apply (proj2 (RenameFollower_other_filter busyRename [key "app" "/logs/a.txt"]
             "/logs/a.txt" txtFollower 7%nat [] (mkFilter "app" "/logs" ["*.log"] 0%nat)
             [mkFilter "app" "/logs" ["*.txt"] 1%nat] 0%nat "/logs/b.log"
             eq_refl eq_refl
             (fun u (Hu : u ∈ []) => False_ind _ (not_elem_of_nil u Hu))
             eq_refl eq_refl
             ltac:(discriminate) ltac:(vm_compute; discriminate)) 0%nat eq_refl).
Defined.

(** C5 as stated fails: the follower of a.txt cannot be closed;
    [RenameFollower] returns that failure, the cell still holds 4096 and
    nothing is registered under the new key. *)
Lemma RenameFollower_failed_close_migrates_nothing :
  ¬ RenameFollower_migrates busyRename [key "app" "/logs/a.txt"] "/logs/a.txt"
      txtFollower.
Proof.
  intros H.
  destruct (H 7%nat [] (mkFilter "app" "/logs" ["*.log"] 0%nat)
              [mkFilter "app" "/logs" ["*.txt"] 1%nat] 0%nat "/logs/b.log" 0%nat)
    as (r & s' & q & Hrun & _ & Hload & _);
    try (vm_compute; reflexivity).
  - intros u Hu. by apply elem_of_nil in Hu.
  - discriminate.
  - vm_compute. discriminate.
  - vm_compute in Hrun. injection Hrun as <- <-. vm_compute in Hload. discriminate.
Qed.

(** ** The pairing of the two tables *)

(** The operations that only remove keys, or touch neither table, keep the
    pairing. *)
Lemma pairing_AddFilter E bn lc ms h s :
  pairing s → pairing (AddFilter E bn lc ms h s).2.
Proof. done. Qed.

Lemma pairing_removeLoop E fpath fs :
  ∀ s, pairing s → pairing (removeLoop E fs fpath s).2.
Proof.
  induction fs as [|v fs IH]; intros s Hp; [done|]. simpl.
  destruct (fl_lookup s (mkFileName (bname v) fpath)) as [fl|]; [|by apply IH].
  set (k0 := mkFileName (bname v) fpath).
  assert (Hp1 : pairing (emit (EvClose fl) (st_delete k0 (fl_delete k0 s)))).
  { intros k p Hk.
    assert (Hk' : fl_lookup (fl_delete k0 s) k = Some p) by exact Hk.
    rewrite fl_lookup_delete in Hk'. case_decide; [done|].
    etrans; [apply (lookup_delete_ne (states s) k0 k); done|]. by apply Hp. }
  unfold follower_Close. destruct (Close_err E fl); [done|]. by apply IH.
Qed.

Lemma pairing_RemoveFollower E fpath s :
  pairing s → pairing (RemoveFollower E fpath s).2.
Proof. apply pairing_removeLoop. Qed.

(** C10.  The pairing of the follower table with the state map is not
    preserved.  [NewFollower] on a path whose key holds a follower of
    another identity: [launchFollowers] registers a cell for the key, then
    [addFollower] removes the key from the state map while discarding the
    stale follower, and registers the new follower.  [RenameFollower] when
    the file moved under another filter: the old key is removed from the
    state map and [addFollower] registers the new follower without an entry
    for the new key.  In both cases a key of the follower table is missing
    from the state map afterwards. *)
Theorem pairing_not_preserved :
  (pairing oneFollower
   ∧ ∃ s', NewFollower replacedFile [key "app" "/logs/a.log"] "/logs/a.log" oneFollower
           = Ret None s'
           ∧ is_Some (fl_lookup s' (key "app" "/logs/a.log"))
           ∧ states s' !! key "app" "/logs/a.log" = None
           ∧ ¬ pairing s')
  ∧ (pairing txtFollower
     ∧ ∃ s', RenameFollower renamedFile [key "app" "/logs/a.txt"] "/logs/a.txt"
               txtFollower = Ret None s'
             ∧ is_Some (fl_lookup s' (key "app" "/logs/b.log"))
             ∧ states s' !! key "app" "/logs/b.log" = None
             ∧ ¬ pairing s').
Proof.
  split; (split; [intros k p Hk; enum_followers Hk; by vm_compute|]).
  - eexists. split; [vm_compute; reflexivity|].
    split; [by eexists|]. split; [by vm_compute|].
    intros Hp. specialize (Hp (key "app" "/logs/a.log") 2%nat eq_refl).
    vm_compute in Hp. discriminate.
  - eexists. split; [vm_compute; reflexivity|].
    split; [by eexists|]. split; [by vm_compute|].
    intros Hp. specialize (Hp (key "app" "/logs/b.log") 1%nat eq_refl).
    vm_compute in Hp. discriminate.
Qed.

(** * Further properties of the operations *)

(** ** Matching and the registry *)

(** X1.  [matchFile] answers true exactly when one of the patterns matches
    the name without a pattern error: a malformed pattern counts as a
    pattern that does not match, and an empty list matches nothing. *)
Theorem matchFile_some_pattern E ms fname :
  matchFile E ms fname = true ↔ ∃ m, m ∈ ms ∧ Match E m fname = Some true.
Proof.
  induction ms as [|m ms IH]; simpl.
  - split; [done|]. intros (m & Hin & _). by apply elem_of_nil in Hin.
  - destruct (Match E m fname) as [[|]|] eqn:Hm.
    + split; [|done]. intros _. exists m. split; [apply list_elem_of_here|done].
    + rewrite IH. split.
      * intros (m' & ? & ?). exists m'. split; [by right|done].
      * intros (m' & [->|Hin]%elem_of_cons & Hm'); [congruence|]. by exists m'.
    + rewrite IH. split.
      * intros (m' & ? & ?). exists m'. split; [by right|done].
      * intros (m' & [->|Hin]%elem_of_cons & Hm'); [congruence|]. by exists m'.
Qed.

(** X2.  [AddFilter] never fails and appends: the filters already
    registered keep their index, the new filter gets the next index with its
    directory cleaned, and neither the followers nor the states change. *)
Theorem AddFilter_appends E bn lc ms h s :
  (AddFilter E bn lc ms h s).1 = None
  ∧ Filters (AddFilter E bn lc ms h s).2 = Datatypes.S (Filters s)
  ∧ (∀ i flt, index (filters s) i = Some flt →
       index (filters (AddFilter E bn lc ms h s).2) i = Some flt)
  ∧ index (filters (AddFilter E bn lc ms h s).2) (Z.of_nat (Filters s))
    = Some (mkFilter bn (Clean E lc) ms h)
  ∧ followers (AddFilter E bn lc ms h s).2 = followers s
  ∧ states (AddFilter E bn lc ms h s).2 = states s.
Proof.
  unfold Filters. simpl. split; [done|]. split; [|split; [|split]].
  - rewrite length_app. simpl. lia.
  - intros i flt [H0 Hi]%index_Some. apply index_Some. split; [done|].
    by apply lookup_app_l_Some.
  - apply index_Some. split; [lia|]. rewrite Nat2Z.id.
    by rewrite lookup_app_r, Nat.sub_diag.
  - done.
Qed.

(** ** Offset cells *)

(** X3.  [seekInfo] returns the cell recorded for (bname, fpath), and nil
    when there is none, in whatever order the state map is ranged over. *)
Theorem seekInfo_any_order (l : list (FileName * cellptr)) bn fpath s :
  l ≡ₚ map_to_list (states s) →
  seekInfo_in l bn fpath = mjoin (states s !! key bn fpath)
  ∧ seekInfo bn fpath s = seekInfo_in l bn fpath.
Proof.
  intros Hperm.
  assert (Hl : (list_to_map l : gmap FileName cellptr) = states s).
  { rewrite <- (list_to_map_to_list (states s)).
    apply list_to_map_proper; [|done].
    rewrite Hperm. apply NoDup_fst_map_to_list. }
  rewrite seekInfo_in_lookup, Hl. split; [done|]. apply seekInfo_lookup.
Qed.

Lemma seekInfo_any_order_witness :
  seekInfo_in (reverse (map_to_list (states twoFollowers))) "sys" "/logs/a.log"
  = mjoin (states twoFollowers !! key "sys" "/logs/a.log")
  ∧ seekInfo "sys" "/logs/a.log" twoFollowers
    = seekInfo_in (reverse (map_to_list (states twoFollowers))) "sys" "/logs/a.log".
Proof.
  apply (seekInfo_any_order (reverse (map_to_list (states twoFollowers)))
           "sys" "/logs/a.log" twoFollowers).
  apply reverse_Permutation.
Defined.

(** X4.  [addSeekInfo] registers a cell holding 0 for the key, replacing the
    entry the key may have had: [seekInfo] then returns that cell, the
    entries of the other keys are as before, and no follower is touched. *)
Theorem addSeekInfo_then_seekInfo bn fpath s :
  seekInfo bn fpath (addSeekInfo bn fpath s).2 = (addSeekInfo bn fpath s).1
  ∧ (∃ c, (addSeekInfo bn fpath s).1 = Some c
          ∧ load (addSeekInfo bn fpath s).2 c = 0)
  ∧ (∀ bn' fpath', key bn' fpath' ≠ key bn fpath →
       seekInfo bn' fpath' (addSeekInfo bn fpath s).2 = seekInfo bn' fpath' s)
  ∧ followers (addSeekInfo bn fpath s).2 = followers s
  ∧ objs (addSeekInfo bn fpath s).2 = objs s.
Proof.
  rewrite !seekInfo_lookup. unfold addSeekInfo, load. simpl.
  fold (key bn fpath). rewrite !lookup_insert_eq. split; [done|].
  split; [exists (next s); by rewrite lookup_insert_eq|]. split; [|done].
  intros bn' fpath' Hne. rewrite !seekInfo_lookup. simpl.
  by rewrite lookup_insert_ne.
Qed.

(** ** Identity search *)

Lemma findLoop_done E es ms id q :
  findLoop E es ms id q true = (q, true, None).
Proof.
  induction es as [|e es IH]; simpl; [done|]. by rewrite orb_true_r.
Qed.

Lemma findLoop_step E e es ms id p0 :
  findLoop E (e :: es) ms id p0 false =
  if eligible E ms e then
    match getFileIdFromName E (wpath e) with
    | inl rerr => (p0, false, Some rerr)
    | inr lid =>
      if decide (lid = id) then (wpath e, true, None)
      else findLoop E es ms id p0 false
    end
  else findLoop E es ms id p0 false.
Proof.
  unfold eligible. simpl. destruct (wregular e); simpl; [|done].
  destruct (matchFile E ms (Base E (wpath e))); [|done].
  destruct (getFileIdFromName E (wpath e)) as [rerr|lid]; [done|].
  case_decide; [|done]. apply findLoop_done.
Qed.

Lemma passed_cons E ms id e pre :
  passed E ms id (e :: pre) ↔
  (eligible E ms e = true →
     ∃ lid, getFileIdFromName E (wpath e) = inr lid ∧ lid ≠ id)
  ∧ passed E ms id pre.
Proof.
  unfold passed. split.
  - intros H. split; [apply H, list_elem_of_here|]. intros e' Hin. apply H. by right.
  - intros [H1 H2] e' [->|Hin]%elem_of_cons; [done|]. by apply H2.
Qed.

(** The result of the walk told apart by its three shapes. *)
Lemma findLoop_shapes E ms id es :
  ∀ p0 p ok err,
  findLoop E es ms id p0 false = (p, ok, err) →
  match ok, err with
  | true, None =>
    ∃ pre e post, es = pre ++ e :: post ∧ wpath e = p
      ∧ eligible E ms e = true ∧ getFileIdFromName E p = inr id
      ∧ passed E ms id pre
  | true, Some _ => False
  | false, Some rerr =>
    p = p0 ∧ ∃ pre e post, es = pre ++ e :: post
      ∧ eligible E ms e = true ∧ getFileIdFromName E (wpath e) = inl rerr
      ∧ passed E ms id pre
  | false, None => p = p0 ∧ passed E ms id es
  end.
Proof.
  induction es as [|e es IH]; intros p0 p ok err.
  { simpl. intros [= <- <- <-]. split; [done|]. intros e Hin. by apply elem_of_nil in Hin. }
  rewrite findLoop_step. destruct (eligible E ms e) eqn:Hel.
  - destruct (getFileIdFromName E (wpath e)) as [rerr|lid] eqn:Hid.
    { intros [= <- <- <-]. split; [done|]. exists [], e, es. split; [done|].
      split; [done|]. split; [done|]. intros e' Hin. by apply elem_of_nil in Hin. }
    case_decide as Hlid.
    { subst lid. intros [= <- <- <-]. exists [], e, es. split; [done|].
      split; [done|]. split; [done|]. split; [done|].
      intros e' Hin. by apply elem_of_nil in Hin. }
    intros Hrest. specialize (IH p0 p ok err Hrest).
    assert (Hpass : eligible E ms e = true →
              ∃ l, getFileIdFromName E (wpath e) = inr l ∧ l ≠ id) by eauto.
    destruct ok, err as [rerr|]; try done.
    + destruct IH as (pre & e1 & post & -> & ? & ? & ? & ?).
      exists (e :: pre), e1, post. rewrite passed_cons. auto 10.
    + destruct IH as (-> & pre & e1 & post & -> & ? & ? & ?). split; [done|].
      exists (e :: pre), e1, post. rewrite passed_cons. auto 10.
    + destruct IH as [-> ?]. split; [done|]. by rewrite passed_cons.
  - intros Hrest. specialize (IH p0 p ok err Hrest).
    assert (Hpass : eligible E ms e = true →
              ∃ l, getFileIdFromName E (wpath e) = inr l ∧ l ≠ id) by (intros; congruence).
    destruct ok, err as [rerr|]; try done.
    + destruct IH as (pre & e1 & post & -> & ? & ? & ? & ?).
      exists (e :: pre), e1, post. rewrite passed_cons. auto 10.
    + destruct IH as (-> & pre & e1 & post & -> & ? & ? & ?). split; [done|].
      exists (e :: pre), e1, post. rewrite passed_cons. auto 10.
    + destruct IH as [-> ?]. split; [done|]. by rewrite passed_cons.
Qed.

Lemma findLoop_passed E ms id pre rest p0 :
  passed E ms id pre →
  findLoop E (pre ++ rest) ms id p0 false = findLoop E rest ms id p0 false.
Proof.
  induction pre as [|e pre IH]; [done|]. intros [He Hpre]%passed_cons.
  simpl app. rewrite findLoop_step. destruct (eligible E ms e); [|by apply IH].
  destruct (He eq_refl) as (lid & -> & Hne). rewrite decide_False by done.
  by apply IH.
Qed.

(** X5.  [findFileId] reports a path as found exactly when that path is
    the first entry of the walk that is a regular file matched by the
    patterns and carrying the identity, every eligible entry before it
    having answered another identity: the first match wins, later files of
    the same identity are not looked at. *)
Theorem findFileId_first_match E base ms id p :
  findFileId E base ms id = (p, true, None) ↔
  ∃ pre e post,
    Walk E base = pre ++ e :: post
    ∧ wpath e = p
    ∧ eligible E ms e = true
    ∧ getFileIdFromName E p = inr id
    ∧ passed E ms id pre.
Proof.
  unfold findFileId. split.
  - intros Hrun. exact (findLoop_shapes E ms id _ _ _ _ _ Hrun).
  - intros (pre & e & post & -> & <- & Hel & Hid & Hpre).
    rewrite findLoop_passed by done. rewrite findLoop_step, Hel, Hid.
    by rewrite decide_True.
Qed.

(** X6.  When [findFileId] does not find the identity it returns the empty
    path.  It fails only with the error of [getFileIdFromName] on an
    eligible entry met before any match, and then reports nothing found;
    without error, no eligible entry of the walk carries the identity.  A
    result is never both found and failed. *)
Theorem findFileId_not_found E base ms id p ok err :
  findFileId E base ms id = (p, ok, err) →
  (ok = true → err = None)
  ∧ (ok = false → p = ""
     ∧ match err with
       | Some rerr =>
         ∃ pre e post, Walk E base = pre ++ e :: post
           ∧ eligible E ms e = true
           ∧ getFileIdFromName E (wpath e) = inl rerr
           ∧ passed E ms id pre
       | None => passed E ms id (Walk E base)
       end).
Proof.
  unfold findFileId. intros Hrun.
  pose proof (findLoop_shapes E ms id _ _ _ _ _ Hrun) as H.
  destruct ok, err as [rerr|]; try done;
    (split; [done|]; intros _; by destruct H).
Qed.

(** No log file of /logs has identity 9. *)
Lemma findFileId_not_found_witness :
  (false = true → @None error = None)
  ∧ (false = false → "" = ""
     ∧ passed threeLogs ["*.log"] 9%nat (Walk threeLogs "/logs")).
Proof.
  exact (findFileId_not_found threeLogs "/logs" ["*.log"] 9%nat
           "" false None eq_refl).
Defined.

(** The first match wins: b.log and c.log both have identity 7. *)
Example findFileId_first_of_two :
  findFileId threeLogs "/logs" ["*.log"] 7%nat = ("/logs/b.log", true, None).
Proof. vm_compute. reflexivity. Qed.

(** ** Removal, continued *)

(** X7.  [RemoveFollower] on a path that is followed under no filter
    returns nil and changes nothing. *)
Theorem RemoveFollower_not_followed E fpath s :
  (∀ v, v ∈ filters s → fl_lookup s (key (bname v) fpath) = None) →
  RemoveFollower E fpath s = (None, s).
Proof.
  unfold RemoveFollower, nolockRemoveFollower.
  generalize (filters s) as fs. induction fs as [|v fs IH]; intros Hnone; [done|].
  simpl. fold (key (bname v) fpath).
  rewrite (Hnone v (list_elem_of_here _ _)). apply IH.
  intros u Hu. apply Hnone. by right.
Qed.

Lemma RemoveFollower_not_followed_witness :
  RemoveFollower sameFile "/logs/other.log" twoFollowers = (None, twoFollowers).
Proof.
  apply (RemoveFollower_not_followed sameFile "/logs/other.log" twoFollowers).
  intros v Hv. unfold twoFollowers in Hv. simpl in Hv.
  repeat (apply elem_of_cons in Hv as [->|Hv]; [vm_compute; reflexivity|]).
  by apply elem_of_nil in Hv.
Defined.

Lemma removeLoop_frame E fpath fs :
  ∀ s, filters (removeLoop E fs fpath s).2 = filters s
       ∧ objs (removeLoop E fs fpath s).2 = objs s
       ∧ cells (removeLoop E fs fpath s).2 = cells s
       ∧ stateFout (removeLoop E fs fpath s).2 = stateFout s.
Proof.
  induction fs as [|v fs IH]; intros s; [done|]. simpl.
  destruct (fl_lookup s (mkFileName (bname v) fpath)) as [fl|]; [|apply IH].
  unfold follower_Close. destruct (Close_err E fl); [done|].
  set (s1 := emit _ _). destruct (IH s1) as (-> & -> & -> & ->). done.
Qed.

(** X8.  [RemoveFollower] keeps the pairing of the two tables (every key of
    the follower table is in the state map with the cell of its follower),
    also when a close fails, and it changes neither the filter registry nor
    any follower object nor the value of any offset cell. *)
Theorem RemoveFollower_keeps_pairing E fpath s :
  pairing s →
  pairing (RemoveFollower E fpath s).2
  ∧ filters (RemoveFollower E fpath s).2 = filters s
  ∧ objs (RemoveFollower E fpath s).2 = objs s
  ∧ cells (RemoveFollower E fpath s).2 = cells s.
Proof.
  intros Hp. unfold RemoveFollower, nolockRemoveFollower.
  destruct (removeLoop_frame E fpath (filters s) s) as (Hf & Ho & Hc & _).
  split; [by apply pairing_removeLoop|done].
Qed.

Lemma RemoveFollower_keeps_pairing_witness :
  pairing (RemoveFollower (world [] [(0%nat, "e0")] (inr 0)) "/logs/a.log"
             twoFollowers).2
  ∧ filters (RemoveFollower (world [] [(0%nat, "e0")] (inr 0)) "/logs/a.log"
               twoFollowers).2 = filters twoFollowers
  ∧ objs (RemoveFollower (world [] [(0%nat, "e0")] (inr 0)) "/logs/a.log"
            twoFollowers).2 = objs twoFollowers
  ∧ cells (RemoveFollower (world [] [(0%nat, "e0")] (inr 0)) "/logs/a.log"
             twoFollowers).2 = cells twoFollowers.
Proof.
  apply (RemoveFollower_keeps_pairing (world [] [(0%nat, "e0")] (inr 0))
           "/logs/a.log" twoFollowers).
  intros k p Hk. enum_followers Hk; by vm_compute.
Defined.

(** ** Rename detection, continued *)

(** What one pass of the loop body can do to the tables: leave them (the
    close failed), remove the key, or move the key. *)
Lemma checkRename_hit_shapes E k v fpath b s r s' :
  fl_lookup s k = Some v →
  checkRename_hit E k v fpath b s = Ret r s' →
  filters s' = filters s ∧ cells s' = cells s ∧ next s' = next s
  ∧ stateFout s' = stateFout s
  ∧ ((followers s' = followers s ∧ states s' = states s ∧ objs s' = objs s)
     ∨ (followers s' = delete k <$> followers s
        ∧ states s' = delete k (states s) ∧ objs s' = objs s)
     ∨ (∃ m, followers s = Some m
          ∧ followers s' = Some (<[mkFileName (BaseName k) fpath := v]> (delete k m))
          ∧ states s' = <[mkFileName (BaseName k) fpath := state (getf s v)]>
                          (delete k (states s))
          ∧ objs s' = <[v := mkFollower
                               (mkFileName (BaseName (fileName (getf s v))) fpath)
                               (fileId (getf s v)) (filterId (getf s v))
                               (state (getf s v))]> (objs s))).
Proof.
  intros Hk. unfold checkRename_hit.
  destruct (index (filters s) (filterId (getf s v))) as [flt|] eqn:Hidx; [|done].
  assert (Hrange : bool_decide (Z.of_nat (length (filters s)) <= filterId (getf s v))
                   || bool_decide (filterId (getf s v) < 0) = false).
  { apply index_Some in Hidx as [H0 Hl]. apply lookup_lt_Some in Hl.
    rewrite bool_decide_eq_false_2, bool_decide_eq_false_2; [done| lia | lia]. }
  rewrite Hrange.
  destruct (negb (bool_decide (loc flt = Dir E fpath))
            || negb (matchFile E (mtchs flt) (Base E fpath))).
  - unfold fl_lookup in Hk. destruct (followers s) as [m|] eqn:Hm; [|done].
    unfold fl_insert. simpl. rewrite Hm. simpl. intros [= <- <-]. simpl.
    do 4 (split; [done|]). right. right. exists m. split; [done|].
    unfold getf. simpl. by rewrite lookup_insert_eq.
  - unfold follower_Close. destruct (Close_err E v) as [e|].
    + intros [= <- <-]. simpl. do 4 (split; [done|]). by left.
    + intros [= <- <-]. simpl. do 4 (split; [done|]). right. by left.
Qed.

Lemma checkRename_hit_pairing E k v fpath b s r s' :
  pairing s →
  fl_lookup s k = Some v →
  checkRename_hit E k v fpath b s = Ret r s' →
  pairing s'.
Proof.
  intros Hp Hk Hrun.
  destruct (checkRename_hit_shapes E k v fpath b s r s' Hk Hrun)
    as (_ & _ & _ & _ & [(Hfl & Hst & Hob)|[(Hfl & Hst & Hob)|(m & Hm & Hfl & Hst & Hob)]]);
    intros q p; unfold fl_lookup, getf; rewrite Hfl, Hst, Hob.
  - apply Hp.
  - intros Hq.
    assert (Hq' : fl_lookup (fl_delete k s) q = Some p) by exact Hq.
    rewrite fl_lookup_delete in Hq'. case_decide; [done|].
    rewrite lookup_delete_ne by done. by apply Hp.
  - simpl. set (k' := mkFileName (BaseName k) fpath).
    destruct (decide (k' = q)) as [<-|Hne].
    + rewrite !lookup_insert_eq. intros [= <-]. by rewrite lookup_insert_eq.
    + rewrite !lookup_insert_ne by done. intros [Hqk Hq]%lookup_delete_Some.
      rewrite lookup_delete_ne by done.
      assert (Hpq : states s !! q = Some (state (getf s p))).
      { apply Hp. unfold fl_lookup. by rewrite Hm. }
      rewrite Hpq. f_equal. destruct (decide (v = p)) as [->|Hvp].
      * by rewrite lookup_insert_eq.
      * by rewrite lookup_insert_ne.
Qed.

Lemma checkRename_loop_keeps E fpath id order :
  ∀ b s r s',
  pairing s →
  checkRename_loop E order fpath id b s = Ret r s' →
  pairing s' ∧ filters s' = filters s ∧ cells s' = cells s ∧ next s' = next s
  ∧ stateFout s' = stateFout s.
Proof.
  induction order as [|k order IH]; intros b s r s' Hp; simpl.
  { by intros [= <- <-]. }
  destruct (fl_lookup s k) as [v|] eqn:Hk; [|by apply IH].
  case_decide; [|by apply IH].
  destruct (checkRename_hit E k v fpath b s) as [[[stop b'] err] s1|] eqn:Hhit; [|done].
  pose proof (checkRename_hit_pairing _ _ _ _ _ _ _ _ Hp Hk Hhit) as Hp1.
  destruct (checkRename_hit_shapes _ _ _ _ _ _ _ _ Hk Hhit) as (Hf & Hc & Hn & Ho & _).
  destruct stop.
  - by intros [= <- <-].
  - intros Hrest. destruct (IH _ _ _ _ Hp1 Hrest) as (? & -> & -> & -> & ->). done.
Qed.

(** X9.  Whenever [checkRename] returns, with or without an error and
    whatever it renamed or removed, the pairing of the two tables still
    holds if it held before, the filter registry is the same and no offset
    cell has changed value. *)
Theorem checkRename_keeps_pairing E order fpath id s r s' :
  pairing s →
  checkRename E order fpath id s = Ret r s' →
  pairing s' ∧ filters s' = filters s ∧ cells s' = cells s.
Proof.
  intros Hp Hrun.
  destruct (checkRename_loop_keeps E fpath id order false s r s' Hp Hrun)
    as (? & ? & ? & _). done.
Qed.

Lemma checkRename_keeps_pairing_witness :
  pairing (set_obj 0 (mkFollower (key "app" "/logs/a.txt") 7%nat 0 (Some 0%nat))
             (set_states {[ key "app" "/logs/a.txt" := Some 0%nat ]}
                (set_followers (Some {[ key "app" "/logs/a.txt" := 0%nat ]})
                   oneFollower)))
  ∧ filters (set_obj 0 (mkFollower (key "app" "/logs/a.txt") 7%nat 0 (Some 0%nat))
               (set_states {[ key "app" "/logs/a.txt" := Some 0%nat ]}
                  (set_followers (Some {[ key "app" "/logs/a.txt" := 0%nat ]})
                     oneFollower))) = filters oneFollower
  ∧ cells (set_obj 0 (mkFollower (key "app" "/logs/a.txt") 7%nat 0 (Some 0%nat))
             (set_states {[ key "app" "/logs/a.txt" := Some 0%nat ]}
                (set_followers (Some {[ key "app" "/logs/a.txt" := 0%nat ]})
                   oneFollower))) = cells oneFollower.
Proof.
  apply (checkRename_keeps_pairing (world [("/logs/a.txt", (7%nat, 5000))] [] (inr 0))
           [key "app" "/logs/a.log"] "/logs/a.txt" 7%nat oneFollower (true, None)).
  - intros k p Hk. enum_followers Hk; by vm_compute.
  - vm_compute. reflexivity.
Defined.

(** X10.  When [checkRename] has to close a follower and the close fails,
    it returns that error at once with the follower and its cell still in
    their tables: the follower is taken out only after a close that
    succeeded. *)
Theorem checkRename_close_failure E pre k post v fpath id s flt e :
  (∀ k' v', k' ∈ pre → fl_lookup s k' = Some v' → fileId (getf s v') ≠ id) →
  fl_lookup s k = Some v →
  fileId (getf s v) = id →
  index (filters s) (filterId (getf s v)) = Some flt →
  loc flt = Dir E fpath →
  matchFile E (mtchs flt) (Base E fpath) = true →
  Close_err E v = Some e →
  checkRename E (pre ++ k :: post) fpath id s
  = Ret (false, Some e) (emit (EvClose v) s).
Proof.
  intros Hpre Hk Hid Hidx Hloc Hmatch Hclose. unfold checkRename.
  rewrite checkRename_loop_skip by done. simpl.
  rewrite Hk, decide_True by done. unfold checkRename_hit.
  rewrite Hidx, bool_decide_eq_true_2, Hmatch by done. simpl.
  unfold follower_Close. by rewrite Hclose.
Qed.

Lemma checkRename_close_failure_witness :
  checkRename (world [("/logs/b.log", (7%nat, 5000))] [(0%nat, "busy")] (inr 0))
    ([] ++ key "app" "/logs/a.log" :: []) "/logs/b.log" 7%nat oneFollower
  = Ret (false, Some "busy") (emit (EvClose 0%nat) oneFollower).
Proof.
  apply (checkRename_close_failure
           (world [("/logs/b.log", (7%nat, 5000))] [(0%nat, "busy")] (inr 0))
           [] (key "app" "/logs/a.log") [] 0%nat "/logs/b.log" 7%nat oneFollower
           appLogs "busy"); try (vm_compute; reflexivity).
  intros k' v' Hin. by apply elem_of_nil in Hin.
Defined.

(** ** Explicit rename notification, continued *)

Lemma findId_none order fpath s :
  (∀ k p, k ∈ order → fl_lookup s k = Some p →
     FilePath (fileName (getf s p)) ≠ fpath) →
  ∀ acc, findId order fpath s acc = acc.
Proof.
  induction order as [|k order IH]; intros Hno acc; [done|]. simpl.
  assert (Hrest : findId order fpath s acc = acc).
  { apply IH. intros k' p Hin. apply Hno. by right. }
  destruct (fl_lookup s k) as [p|] eqn:Hk; [|done].
  rewrite decide_False; [done|]. by apply (Hno k p); [left|].
Qed.

(** X11.  [RenameFollower] for a path that no follower records returns nil
    and changes nothing: no directory is walked and nothing is removed. *)
Theorem RenameFollower_unknown_path E order fpath s :
  (∀ k p, k ∈ order → fl_lookup s k = Some p →
     FilePath (fileName (getf s p)) ≠ fpath) →
  RenameFollower E order fpath s = Ret None s.
Proof.
  intros Hno. unfold RenameFollower. by rewrite findId_none.
Qed.

Lemma RenameFollower_unknown_path_witness :
  RenameFollower renamedFile twoKeys "/logs/other.log" twoFollowers
  = Ret None twoFollowers.
Proof.
  apply (RenameFollower_unknown_path renamedFile twoKeys "/logs/other.log"
           twoFollowers).
  intros k p _ Hk. enum_followers Hk; by vm_compute.
Defined.

(** X12.  When the identity of the renamed file is found in the directory
    of no filter that follows the old path, [RenameFollower] does what
    [RemoveFollower] does for the old path and returns what it returns. *)
Theorem RenameFollower_found_nowhere E order fpath s id :
  findId order fpath s None = Some id →
  (∀ u, u ∈ filters s →
     fl_lookup s (key (bname u) fpath) = None
     ∨ ∃ q, findFileId E (loc u) (mtchs u) id = (q, false, None)) →
  RenameFollower E order fpath s
  = Ret (RemoveFollower E fpath s).1 (RemoveFollower E fpath s).2.
Proof.
  intros Hid Hnone. unfold RenameFollower. rewrite Hid.
  rewrite <- (app_nil_r (filters s)) at 1. rewrite renameLoop_skip by done.
  simpl. unfold RemoveFollower. by destruct (nolockRemoveFollower E fpath s).
Qed.

Lemma RenameFollower_found_nowhere_witness :
  RenameFollower emptyDir [key "app" "/logs/a.log"] "/logs/a.log" oneFollower
  = Ret (RemoveFollower emptyDir "/logs/a.log" oneFollower).1
        (RemoveFollower emptyDir "/logs/a.log" oneFollower).2.
Proof.
  apply (RenameFollower_found_nowhere emptyDir [key "app" "/logs/a.log"]
           "/logs/a.log" oneFollower 7%nat); [vm_compute; reflexivity|].
  intros u Hu. unfold oneFollower in Hu. simpl in Hu.
  apply list_elem_of_singleton in Hu as ->. right. by exists "".
Defined.

(** X13.  When the walk of a filter's directory fails, [RenameFollower]
    closes the follower at the old key, whatever that close answers, takes
    the key out of both tables and returns the error of the walk; the
    filters after it are not tried. *)
Theorem RenameFollower_walk_error E order fpath s id pre v post flw p ok err :
  findId order fpath s None = Some id →
  filters s = pre ++ v :: post →
  (∀ u, u ∈ pre →
     fl_lookup s (key (bname u) fpath) = None
     ∨ ∃ q, findFileId E (loc u) (mtchs u) id = (q, false, None)) →
  fl_lookup s (key (bname v) fpath) = Some flw →
  findFileId E (loc v) (mtchs v) id = (p, ok, Some err) →
  ∃ s',
    RenameFollower E order fpath s = Ret (Some err) s'
    ∧ fl_lookup s' (key (bname v) fpath) = None
    ∧ states s' !! key (bname v) fpath = None
    ∧ trace s' = trace s ++ [EvClose flw]
    ∧ cells s' = cells s.
Proof.
  intros Hid Hfs Hpre Hk Hfind.
  unfold RenameFollower. rewrite Hid, Hfs, renameLoop_skip by done.
  simpl. fold (key (bname v) fpath). rewrite Hk, Hfind.
  eexists. split; [by destruct ok|].
  rewrite fl_lookup_delete, decide_True by done. simpl.
  by rewrite lookup_delete_eq.
Qed.

Lemma RenameFollower_walk_error_witness :
  ∃ s',
    RenameFollower unreadable [key "app" "/logs/a.log"] "/logs/a.log" oneFollower
    = Ret (Some "permission denied") s'
    ∧ fl_lookup s' (key "app" "/logs/a.log") = None
    ∧ states s' !! key "app" "/logs/a.log" = None
    ∧ trace s' = trace oneFollower ++ [EvClose 0%nat]
    ∧ cells s' = cells oneFollower.
Proof.
  apply (RenameFollower_walk_error unreadable [key "app" "/logs/a.log"]
           "/logs/a.log" oneFollower 7%nat [] appLogs [] 0%nat "" false
           "permission denied"); try (vm_compute; reflexivity).
  intros u Hu. by apply elem_of_nil in Hu.
Defined.

(** X14.  When the walk finds the identity under the old name itself,
    [RenameFollower] returns nil and changes nothing, whatever filter id the
    follower records. *)
Theorem RenameFollower_same_name E order fpath s id pre v post flw :
  findId order fpath s None = Some id →
  filters s = pre ++ v :: post →
  (∀ u, u ∈ pre →
     fl_lookup s (key (bname u) fpath) = None
     ∨ ∃ q, findFileId E (loc u) (mtchs u) id = (q, false, None)) →
  fl_lookup s (key (bname v) fpath) = Some flw →
  findFileId E (loc v) (mtchs v) id = (fpath, true, None) →
  RenameFollower E order fpath s = Ret None s.
Proof.
  intros Hid Hfs Hpre Hk Hfind.
  unfold RenameFollower. rewrite Hid, Hfs, renameLoop_skip by done.
  simpl. fold (key (bname v) fpath). rewrite Hk, Hfind.
  by rewrite decide_True.
Qed.

Lemma RenameFollower_same_name_witness :
  RenameFollower sameFile [key "app" "/logs/a.log"] "/logs/a.log" oneFollower
  = Ret None oneFollower.
Proof.
  apply (RenameFollower_same_name sameFile [key "app" "/logs/a.log"]
           "/logs/a.log" oneFollower 7%nat [] appLogs [] 0%nat);
    try (vm_compute; reflexivity).
  intros u Hu. by apply elem_of_nil in Hu.
Defined.

(** ** Follower intake *)

Lemma launchLoop_skip E pre rest i fpath fname fdir del s :
  (∀ u, u ∈ pre → loc u ≠ fdir ∨ matchFile E (mtchs u) fname = false) →
  launchLoop E (pre ++ rest) i fpath fname fdir del s
  = launchLoop E rest (i + Z.of_nat (length pre)) fpath fname fdir del s.
Proof.
  revert i. induction pre as [|u pre IH]; intros i Hpre; simpl.
  { by rewrite Z.add_0_r. }
  assert (negb (bool_decide (loc u = fdir)) || negb (matchFile E (mtchs u) fname)
          = true) as ->.
  { destruct (Hpre u (list_elem_of_here _ _)) as [Hl| ->]; [|by rewrite orb_true_r].
    by rewrite bool_decide_eq_false_2. }
  rewrite IH; [f_equal; lia|]. intros w Hw. apply Hpre. by right.
Qed.

Lemma launchLoop_none E fs i fpath fname fdir del s :
  (∀ u, u ∈ fs → loc u ≠ fdir ∨ matchFile E (mtchs u) fname = false) →
  launchLoop E fs i fpath fname fdir del s = Ret None s.
Proof.
  intros Hfs. rewrite <- (app_nil_r fs). by rewrite launchLoop_skip.
Qed.

(** X15.  [NewFollower] and [LoadFile] on a path whose identity no follower
    records and that no filter matches (another directory, or no matching
    pattern) return nil and change nothing: no cell is allocated and no
    follower is created. *)
Theorem launchFollowers_unmatched E order fpath del s id :
  getFileIdFromName E fpath = inr id →
  (∀ k p, k ∈ order → fl_lookup s k = Some p → fileId (getf s p) ≠ id) →
  (∀ u, u ∈ filters s →
     loc u ≠ Dir E fpath ∨ matchFile E (mtchs u) (Base E fpath) = false) →
  launchFollowers E order fpath del s = Ret None s
  ∧ NewFollower E order fpath s = Ret None s
  ∧ LoadFile E order fpath s = Ret None s.
Proof.
  intros Hid Hothers Hfs.
  assert (H : ∀ d, launchFollowers E order fpath d s = Ret None s).
  { intros d. unfold launchFollowers, checkRename.
    rewrite Hid, checkRename_loop_pass by done. by apply launchLoop_none. }
  unfold NewFollower, LoadFile. by rewrite !H.
Qed.

Lemma launchFollowers_unmatched_witness :
  launchFollowers (world [("/tmp/a.log", (3%nat, 1))] [] (inr 0))
    twoKeys "/tmp/a.log" true twoFollowers = Ret None twoFollowers
  ∧ NewFollower (world [("/tmp/a.log", (3%nat, 1))] [] (inr 0))
      twoKeys "/tmp/a.log" twoFollowers = Ret None twoFollowers
  ∧ LoadFile (world [("/tmp/a.log", (3%nat, 1))] [] (inr 0))
      twoKeys "/tmp/a.log" twoFollowers = Ret None twoFollowers.
Proof.
  apply (launchFollowers_unmatched (world [("/tmp/a.log", (3%nat, 1))] [] (inr 0))
           twoKeys "/tmp/a.log" true twoFollowers 3%nat).
  - vm_compute. reflexivity.
  - intros k p _ Hk. enum_followers Hk; by vm_compute.
  - intros u Hu. unfold twoFollowers in Hu. simpl in Hu.
    repeat (apply elem_of_cons in Hu as [->|Hu]; [left; by vm_compute|]).
    by apply elem_of_nil in Hu.
Defined.

(** X16.  [LoadFile] resumes: for a path whose identity no follower already
    records, that exactly one filter matches, whose key is free and has a
    recorded offset cell, the follower being constructed and started without
    error, the new follower references that very cell; the state map and
    every offset are as before.  The follower records the identity of the
    path and the index of the filter. *)
Theorem LoadFile_resumes E order fpath s id pre v post c m :
  getFileIdFromName E fpath = inr id →
  (∀ k p, k ∈ order → fl_lookup s k = Some p → fileId (getf s p) ≠ id) →
  filters s = pre ++ v :: post →
  (∀ u, u ∈ pre ++ post →
     loc u ≠ Dir E fpath ∨ matchFile E (mtchs u) (Base E fpath) = false) →
  loc v = Dir E fpath →
  matchFile E (mtchs v) (Base E fpath) = true →
  followers s = Some m →
  m !! key (bname v) fpath = None →
  states s !! key (bname v) fpath = Some (Some c) →
  New_err E (key (bname v) fpath) = None →
  Start_err E (key (bname v) fpath) = None →
  ∃ s',
    LoadFile E order fpath s = Ret None s'
    ∧ fl_lookup s' (key (bname v) fpath) = Some (next s)
    ∧ getf s' (next s)
      = mkFollower (key (bname v) fpath) id (Z.of_nat (length pre)) (Some c)
    ∧ states s' = states s
    ∧ cells s' = cells s
    ∧ trace s' = trace s ++ [EvNew (next s); EvStart (next s)].
Proof.
  intros Hid Hothers Hfs Hrest Hloc Hmatch Hm Hfree Hst Hnew Hstart.
  unfold LoadFile, launchFollowers, checkRename.
  rewrite Hid, checkRename_loop_pass, Hfs by done.
  rewrite launchLoop_skip.
  2: { intros u Hu. apply Hrest. apply elem_of_app. by left. }
  simpl. rewrite bool_decide_eq_true_2, Hmatch by done. simpl.
  rewrite seekInfo_lookup, Hst. simpl.
  unfold addFollower. fold (key (bname v) fpath). rewrite Hid.
  unfold fl_lookup at 1. rewrite Hm. simpl. rewrite Hfree.
  unfold NewFollower_ctor. fold (key (bname v) fpath). rewrite Hnew, Hid.
  unfold follower_Start, getf. simpl. rewrite lookup_insert_eq. simpl.
  rewrite Hstart. unfold fl_insert. simpl. rewrite Hm.
  rewrite launchLoop_none.
  2: { intros u Hu. apply Hrest. apply elem_of_app. by right. }
  eexists. split; [reflexivity|]. unfold fl_lookup. simpl.
  rewrite !lookup_insert_eq, <- app_assoc. done.
Qed.

(** X17.  [NewFollower] starts afresh: for a path whose identity no
    follower already records, that exactly one filter matches and whose key
    is free, the follower being constructed and started without error, it
    allocates a new cell holding 0, records it in the state map under the key
    in place of any earlier entry, and the new follower references that new
    cell; the cells that existed keep their values. *)
Theorem NewFollower_starts_fresh E order fpath s id pre v post m :
  getFileIdFromName E fpath = inr id →
  (∀ k p, k ∈ order → fl_lookup s k = Some p → fileId (getf s p) ≠ id) →
  filters s = pre ++ v :: post →
  (∀ u, u ∈ pre ++ post →
     loc u ≠ Dir E fpath ∨ matchFile E (mtchs u) (Base E fpath) = false) →
  loc v = Dir E fpath →
  matchFile E (mtchs v) (Base E fpath) = true →
  followers s = Some m →
  m !! key (bname v) fpath = None →
  New_err E (key (bname v) fpath) = None →
  Start_err E (key (bname v) fpath) = None →
  ∃ s',
    NewFollower E order fpath s = Ret None s'
    ∧ fl_lookup s' (key (bname v) fpath) = Some (Datatypes.S (next s))
    ∧ getf s' (Datatypes.S (next s))
      = mkFollower (key (bname v) fpath) id (Z.of_nat (length pre)) (Some (next s))
    ∧ states s' !! key (bname v) fpath = Some (Some (next s))
    ∧ load s' (next s) = 0
    ∧ (∀ c, c ≠ next s → load s' c = load s c)
    ∧ trace s' = trace s ++ [EvNew (Datatypes.S (next s)); EvStart (Datatypes.S (next s))].
Proof.
  intros Hid Hothers Hfs Hrest Hloc Hmatch Hm Hfree Hnew Hstart.
  unfold NewFollower, launchFollowers, checkRename.
  rewrite Hid, checkRename_loop_pass, Hfs by done.
  rewrite launchLoop_skip.
  2: { intros u Hu. apply Hrest. apply elem_of_app. by left. }
  simpl. rewrite bool_decide_eq_true_2, Hmatch by done. simpl.
  unfold addFollower. fold (key (bname v) fpath). rewrite Hid.
  unfold fl_lookup at 1. simpl. rewrite Hm. simpl. rewrite Hfree.
  unfold NewFollower_ctor. fold (key (bname v) fpath). rewrite Hnew, Hid.
  unfold follower_Start, getf. simpl. rewrite lookup_insert_eq. simpl.
  rewrite Hstart. unfold fl_insert. simpl. rewrite Hm.
  rewrite launchLoop_none.
  2: { intros u Hu. apply Hrest. apply elem_of_app. by right. }
  eexists. split; [reflexivity|]. unfold fl_lookup, load. simpl.
  rewrite !lookup_insert_eq, <- app_assoc. do 4 (split; [done|]).
  split; [|done]. intros c Hc. by rewrite lookup_insert_ne.
Qed.

Lemma LoadFile_resumes_witness :
  ∃ s',
    LoadFile sameFile [] "/logs/a.log" resting = Ret None s'
    ∧ fl_lookup s' (key "app" "/logs/a.log") = Some (next resting)
    ∧ getf s' (next resting)
      = mkFollower (key "app" "/logs/a.log") 7%nat
          (Z.of_nat (length (@nil filter))) (Some 0%nat)
    ∧ states s' = states resting
    ∧ cells s' = cells resting
    ∧ trace s' = trace resting ++ [EvNew (next resting); EvStart (next resting)].
Proof.
  apply (LoadFile_resumes sameFile [] "/logs/a.log" resting 7%nat [] appLogs []
           0%nat ∅); try (vm_compute; reflexivity).
  - intros k p Hin. by apply elem_of_nil in Hin.
  - intros u Hu. by apply elem_of_nil in Hu.
Defined.

Lemma NewFollower_starts_fresh_witness :
  ∃ s',
    NewFollower sameFile [] "/logs/a.log" resting = Ret None s'
    ∧ fl_lookup s' (key "app" "/logs/a.log") = Some (Datatypes.S (next resting))
    ∧ getf s' (Datatypes.S (next resting))
      = mkFollower (key "app" "/logs/a.log") 7%nat
          (Z.of_nat (length (@nil filter))) (Some (next resting))
    ∧ states s' !! key "app" "/logs/a.log" = Some (Some (next resting))
    ∧ load s' (next resting) = 0
    ∧ (∀ c, c ≠ next resting → load s' c = load resting c)
    ∧ trace s' = trace resting ++ [EvNew (Datatypes.S (next resting));
                                   EvStart (Datatypes.S (next resting))].
Proof.
  apply (NewFollower_starts_fresh sameFile [] "/logs/a.log" resting 7%nat []
           appLogs [] ∅); try (vm_compute; reflexivity).
  - intros k p Hin. by apply elem_of_nil in Hin.
  - intros u Hu. by apply elem_of_nil in Hu.
Defined.

(** X18.  On a free key, when the new follower is constructed but cannot
    be started, [addFollower] closes that follower again, registers nothing
    and returns the error of the start: both tables and every offset are as
    before the call. *)
Theorem addFollower_start_failure E bn fpath si fid h s id e :
  getFileIdFromName E fpath = inr id →
  fl_lookup s (key bn fpath) = None →
  New_err E (key bn fpath) = None →
  Start_err E (key bn fpath) = Some e →
  ∃ s',
    addFollower E bn fpath si fid h s = Ret (Some e) s'
    ∧ followers s' = followers s
    ∧ states s' = states s
    ∧ cells s' = cells s
    ∧ trace s' = trace s ++ [EvNew (next s); EvStart (next s); EvClose (next s)].
Proof.
  intros Hid Hfree Hnew Hstart.
  unfold addFollower. fold (key bn fpath). rewrite Hid, Hfree.
  unfold NewFollower_ctor. fold (key bn fpath). rewrite Hnew, Hid.
  unfold follower_Start, getf. simpl. rewrite lookup_insert_eq. simpl.
  rewrite Hstart. eexists. split; [reflexivity|]. simpl.
  by rewrite <- !app_assoc.
Qed.

Lemma addFollower_start_failure_witness :
  ∃ s',
    addFollower cannotStart "app" "/logs/a.log" (Some 0%nat) 0 0%nat resting
    = Ret (Some "cannot watch") s'
    ∧ followers s' = followers resting
    ∧ states s' = states resting
    ∧ cells s' = cells resting
    ∧ trace s' = trace resting
                 ++ [EvNew (next resting); EvStart (next resting);
                     EvClose (next resting)].
Proof.
  apply (addFollower_start_failure cannotStart "app" "/logs/a.log" (Some 0%nat)
           0 0%nat resting 7%nat "cannot watch"); vm_compute; reflexivity.
Defined.

(** X19.  A manager that was closed cannot take followers again: [Close]
    leaves the follower table nil, so after a filter is added, [NewFollower]
    and [LoadFile] on a path that the filter matches construct and start the
    follower and then panic on the assignment to the nil map. *)
Theorem intake_after_Close_panics E o order bn lc ms h fpath s id :
  getFileIdFromName E fpath = inr id →
  Clean E lc = Dir E fpath →
  matchFile E ms (Base E fpath) = true →
  New_err E (key bn fpath) = None →
  Start_err E (key bn fpath) = None →
  NewFollower E order fpath (AddFilter E bn lc ms h (Close E o s).2).2
  = Panic "assignment to entry in nil map"
  ∧ LoadFile E order fpath (AddFilter E bn lc ms h (Close E o s).2).2
    = Panic "assignment to entry in nil map".
Proof.
  intros Hid Hclean Hmatch Hnew Hstart.
  destruct (Close_unset E o s) as [Hfl Hfs].
  destruct (Close E o s).2 as [fs fl sts sf fo ob ce nx tr]. simpl in Hfl, Hfs.
  subst fs fl.
  assert (H : ∀ d, launchFollowers E order fpath d
                (AddFilter E bn lc ms h (mkFM [] None sts sf fo ob ce nx tr)).2
              = Panic "assignment to entry in nil map").
  { intros d. unfold launchFollowers, checkRename. rewrite Hid.
    rewrite checkRename_loop_pass by (intros k p _ Hk; done).
    simpl. rewrite bool_decide_eq_true_2, Hmatch by done. simpl.
    assert (Hsk : seekInfo bn fpath
              (set_filters [mkFilter bn (Clean E lc) ms h]
                 (mkFM [] None sts sf fo ob ce nx tr)) = mjoin (sts !! key bn fpath))
      by apply seekInfo_lookup.
    destruct d; [|rewrite Hsk; destruct (sts !! key bn fpath) as [[c|]|]; simpl];
      unfold addFollower; fold (key bn fpath); rewrite Hid; simpl;
      unfold NewFollower_ctor; fold (key bn fpath); rewrite Hnew, Hid;
      unfold follower_Start, getf; simpl; rewrite lookup_insert_eq; simpl;
      by rewrite Hstart. }
  unfold NewFollower, LoadFile. by rewrite !H.
Qed.

Lemma intake_after_Close_panics_witness :
  NewFollower sameFile [] "/logs/a.log"
    (AddFilter sameFile "app" "/logs" ["*.log"] 0%nat
       (Close sameFile [key "app" "/logs/a.log"] oneFollower).2).2
  = Panic "assignment to entry in nil map"
  ∧ LoadFile sameFile [] "/logs/a.log"
      (AddFilter sameFile "app" "/logs" ["*.log"] 0%nat
         (Close sameFile [key "app" "/logs/a.log"] oneFollower).2).2
    = Panic "assignment to entry in nil map".
Proof.
  apply (intake_after_Close_panics sameFile [key "app" "/logs/a.log"] []
           "app" "/logs" ["*.log"] 0%nat "/logs/a.log" oneFollower 7%nat);
    vm_compute; reflexivity.
Defined.

(** ** Shutdown, continued *)

Lemma snapshot_entries s k oz :
  (k, oz) ∈ snapshot s ↔ ∃ cp, states s !! k = Some cp ∧ oz = load s <$> cp.
Proof.
  unfold snapshot. rewrite list_elem_of_fmap. split.
  - intros ([k' cp] & [= -> ->] & Hin%elem_of_map_to_list). by exists cp.
  - intros (cp & Hk & ->). exists (k, cp). split; [done|].
    by apply elem_of_map_to_list.
Qed.

(** X20.  A shutdown on a healthy store is orderly: [Close] first closes
    the followers, then rewinds the state file, truncates it, encodes the
    whole state map (every key with the current value of its cell) and
    closes the handle, in that order.  Afterwards the follower table is nil,
    the registry empty and the handle nil, while the state map and the
    offsets in memory are untouched. *)
Theorem Close_orderly E order s h :
  stateFout s = Some h →
  Seek_res E h = inr 0 →
  Truncate_err E h = None →
  Encode_err E h = None →
  FileClose_err E h = None →
  trace (Close E order s).2
  = trace s ++ (EvClose <$> visited s order)
    ++ [EvSeek h; EvTruncate h; EvEncode h (snapshot s); EvFileClose (Some h)]
  ∧ (∀ k oz, (k, oz) ∈ snapshot s ↔
             ∃ cp, states s !! k = Some cp ∧ oz = load s <$> cp)
  ∧ followers (Close E order s).2 = None
  ∧ filters (Close E order s).2 = []
  ∧ stateFout (Close E order s).2 = None
  ∧ states (Close E order s).2 = states s
  ∧ cells (Close E order s).2 = cells s.
Proof.
  intros Hh Hseek Htr Henc Hcl. rewrite Close_unfold. cbv zeta.
  unfold dumpStates. simpl. rewrite Hh, Hseek. simpl. rewrite Htr, Henc.
  simpl. rewrite Hh. simpl. rewrite Hcl. simpl.
  split; [by rewrite <- !app_assoc|]. split; [apply snapshot_entries|done].
Qed.

Lemma Close_orderly_witness :
  trace (Close sameFile twoKeys twoFollowers).2
  = trace twoFollowers ++ (EvClose <$> visited twoFollowers twoKeys)
    ++ [EvSeek 3%nat; EvTruncate 3%nat; EvEncode 3%nat (snapshot twoFollowers);
        EvFileClose (Some 3%nat)]
  ∧ (∀ k oz, (k, oz) ∈ snapshot twoFollowers ↔
             ∃ cp, states twoFollowers !! k = Some cp
                   ∧ oz = load twoFollowers <$> cp)
  ∧ followers (Close sameFile twoKeys twoFollowers).2 = None
  ∧ filters (Close sameFile twoKeys twoFollowers).2 = []
  ∧ stateFout (Close sameFile twoKeys twoFollowers).2 = None
  ∧ states (Close sameFile twoKeys twoFollowers).2 = states twoFollowers
  ∧ cells (Close sameFile twoKeys twoFollowers).2 = cells twoFollowers.
Proof.
  apply (Close_orderly sameFile twoKeys twoFollowers 3%nat); reflexivity.
Defined.

(** X21.  When the state file cannot be rewound ([Seek] fails, or answers
    an offset other than 0), [Close] returns that failure and does not touch
    the file: nothing is truncated or written, and the handle is neither
    closed nor reset, so the previous snapshot is still on disk.  The
    followers have been closed and the tables cleared all the same. *)
Theorem Close_failed_rewind E order s h :
  stateFout s = Some h →
  match Seek_res E h with inl _ => True | inr n => n ≠ 0 end →
  (Close E order s).1
  = Some (match Seek_res E h with inl e => e | inr _ => ErrFailedSeek E end)
  ∧ trace (Close E order s).2
    = trace s ++ (EvClose <$> visited s order) ++ [EvSeek h]
  ∧ stateFout (Close E order s).2 = Some h
  ∧ followers (Close E order s).2 = None
  ∧ filters (Close E order s).2 = [].
Proof.
  intros Hh Hseek. rewrite Close_unfold. cbv zeta.
  unfold dumpStates. simpl. rewrite Hh.
  destruct (Seek_res E h) as [e|n]; simpl.
  - by rewrite <- !app_assoc.
  - rewrite decide_False by done. simpl. by rewrite <- !app_assoc.
Qed.

Lemma Close_failed_rewind_witness :
  (Close (world [] [] (inr 42)) twoKeys twoFollowers).1 = Some "failed to seek"
  ∧ trace (Close (world [] [] (inr 42)) twoKeys twoFollowers).2
    = trace twoFollowers ++ (EvClose <$> visited twoFollowers twoKeys)
      ++ [EvSeek 3%nat]
  ∧ stateFout (Close (world [] [] (inr 42)) twoKeys twoFollowers).2 = Some 3%nat
  ∧ followers (Close (world [] [] (inr 42)) twoKeys twoFollowers).2 = None
  ∧ filters (Close (world [] [] (inr 42)) twoKeys twoFollowers).2 = [].
Proof.
  apply (Close_failed_rewind (world [] [] (inr 42)) twoKeys twoFollowers 3%nat).
  - reflexivity.
  - simpl. discriminate.
Defined.

(** ** Sanitation, continued *)

(** A map in which every file is there and no offset is beyond the size of
    its file is left alone. *)
Lemma cleanStates_stable E order :
  ∀ m h,
  (∀ k v, m !! k = Some v → k ∈ order →
     ∃ size, Stat E (FilePath k) = StatOk size
             ∧ ∀ c, v = Some c → ¬ size < rd h c) →
  cleanStates E order m h = (None, m, h).
Proof.
  induction order as [|k0 order IH]; intros m h Hok; [done|]. simpl.
  assert (Hrest : cleanStates E order m h = (None, m, h)).
  { apply IH. intros k v Hk Hin. apply (Hok k v Hk). by right. }
  destruct (m !! k0) as [v|] eqn:Hk0; [|done].
  destruct (Hok k0 v Hk0 (list_elem_of_here _ _)) as (size & -> & Hsize).
  destruct v as [c|]; [|done].
  rewrite decide_False; [done|]. by apply (Hsize c).
Qed.

(** X22.  Sanitation is idempotent: after a [cleanStates] that returned
    without error, running it again over the same files, in any order,
    returns without error and changes neither the map nor any offset. *)
Theorem cleanStates_idempotent E order order' m h :
  (∀ k, is_Some (m !! k) → k ∈ order) →
  (∀ p size, Stat E p = StatOk size → 0 <= size) →
  (cleanStates E order m h).1.1 = None →
  cleanStates E order' (cleanStates E order m h).1.2 (cleanStates E order m h).2
  = (None, (cleanStates E order m h).1.2, (cleanStates E order m h).2).
Proof.
  intros Hcover Hsize Hok.
  assert (Hstat : ∀ k v e, m !! k = Some v → Stat E (FilePath k) ≠ StatErr e).
  { intros k v e Hk Hs. apply (cleanStates_hard_error E order m h k v e); try done.
    apply Hcover. by rewrite Hk. }
  destruct (cleanStates_pass E order m h Hstat) as (m' & h' & Hrun & Ha & Hb & _ & Hd).
  rewrite Hrun. simpl. apply cleanStates_stable.
  intros k v Hk _. rewrite Ha in Hk. case_decide as Hgone; [done|].
  assert (Hin : k ∈ order) by (apply Hcover; by rewrite Hk).
  destruct (Stat E (FilePath k)) as [size| |e] eqn:Hs.
  - exists size. split; [done|]. intros c -> Hlt.
    pose proof (Hsize _ _ Hs) as Hpos.
    destruct (Hb c) as [Heq|Hz]; [|lia].
    rewrite Heq in Hlt. pose proof (Hd k c size Hin Hk Hs Hlt). lia.
  - by destruct Hgone.
  - by destruct (Hstat k v e Hk).
Qed.

Lemma cleanStates_idempotent_witness :
  cleanStates diskNow (reverse loadedKeys)
    (cleanStates diskNow loadedKeys loadedStates loadedCells).1.2
    (cleanStates diskNow loadedKeys loadedStates loadedCells).2
  = (None, (cleanStates diskNow loadedKeys loadedStates loadedCells).1.2,
     (cleanStates diskNow loadedKeys loadedStates loadedCells).2).
Proof.
  apply (cleanStates_idempotent diskNow loadedKeys (reverse loadedKeys)
           loadedStates loadedCells).
  - intros k [v Hk]. enum Hk; set_solver.
  - intros p size Hs. unfold diskNow, world in Hs. simpl in Hs.
    repeat (case_decide; [injection Hs as <-; lia|]). discriminate.
  - vm_compute. reflexivity.
Defined.

(** ** Construction *)

Lemma cleanStates_empty E order h :
  cleanStates E order ∅ h = (None, ∅, h).
Proof. induction order as [|k order IH]; simpl; [done|]. by rewrite lookup_empty. Qed.

(** A successful [initStateFile] returns an open handle. *)
Lemma initStateFile_handle E S p fout st :
  initStateFile E S p = (fout, st, None) → is_Some fout.
Proof.
  unfold initStateFile.
  destruct (Stat E p) as [sz| |e0];
    [|destruct (OpenCreate S p); intros [= <- <-]; by eauto|done].
  destruct (IsRegular S p); [|done].
  destruct (OpenRW S p) as [|h]; [done|].
  destruct (FileSize S h) as [|size]; [done|].
  case_decide; [destruct (Decode S h)|]; intros [= <- <-]; by eauto.
Qed.

(** X23.  Whenever [NewFilterManager] returns a manager, the manager is
    ready for use: no filter, an empty (not nil) follower table, an open
    store handle, the pairing of the tables, and no call was made on the
    handle. *)
Theorem NewFilterManager_ready E S order p tr s :
  NewFilterManager E S order p = (tr, inr s) →
  tr = []
  ∧ filters s = []
  ∧ followers s = Some ∅
  ∧ Followed s = 0%nat
  ∧ is_Some (stateFout s)
  ∧ stateFile s = p
  ∧ pairing s.
Proof.
  unfold NewFilterManager.
  destruct (initStateFile E S p) as [[fout [[m h] n]] [err|]] eqn:Hinit; [done|].
  pose proof (initStateFile_handle _ _ _ _ _ Hinit) as Hfout.
  destruct (cleanStates E order m h) as [[[err|] m'] h']; [done|].
  intros [= <- <-]. simpl. do 6 (split; [done|]).
  intros k q Hk. unfold fl_lookup in Hk. simpl in Hk. by rewrite lookup_empty in Hk.
Qed.

Lemma NewFilterManager_ready_witness :
  @nil event = []
  ∧ filters (mkFM [] (Some ∅) ∅ "/var/state" (Some 3%nat) ∅ ∅ 0 []) = []
  ∧ followers (mkFM [] (Some ∅) ∅ "/var/state" (Some 3%nat) ∅ ∅ 0 []) = Some ∅
  ∧ Followed (mkFM [] (Some ∅) ∅ "/var/state" (Some 3%nat) ∅ ∅ 0 []) = 0%nat
  ∧ is_Some (stateFout (mkFM [] (Some ∅) ∅ "/var/state" (Some 3%nat) ∅ ∅ 0 []))
  ∧ stateFile (mkFM [] (Some ∅) ∅ "/var/state" (Some 3%nat) ∅ ∅ 0 []) = "/var/state"
  ∧ pairing (mkFM [] (Some ∅) ∅ "/var/state" (Some 3%nat) ∅ ∅ 0 []).
Proof.
  apply (NewFilterManager_ready emptyDir stateFileOk [] "/var/state").
  vm_compute. reflexivity.
Defined.

(** X24.  The store handle when construction fails.  If the open state
    file cannot be sized or decoded, [NewFilterManager] returns the error
    without any call on the handle that [initStateFile] opened: it is not
    closed.  If sanitation fails, the handle is closed before the error is
    returned. *)
Theorem NewFilterManager_failure_handle E S order p :
  (∀ sz h, Stat E p = StatOk sz → IsRegular S p = true → OpenRW S p = inr h →
     match FileSize S h with
     | inl _ => True
     | inr size => 0 < size ∧ ∃ e, Decode S h = inl e
     end →
     (initStateFile E S p).1.1 = Some h
     ∧ ∃ err, NewFilterManager E S order p = ([], inl err))
  ∧ (∀ fout m hp n e, initStateFile E S p = (fout, (m, hp, n), None) →
       (cleanStates E order m hp).1.1 = Some e →
       NewFilterManager E S order p = ([EvFileClose fout], inl e)
       ∧ is_Some fout).
Proof.
  split.
  - intros sz h Hs Hreg Hopen Hfail.
    unfold NewFilterManager, initStateFile. rewrite Hs, Hreg, Hopen.
    destruct (FileSize S h) as [e|size]; [by eauto|].
    destruct Hfail as [Hpos [e He]]. rewrite decide_True, He by done. by eauto.
  - intros fout m hp n e Hinit Hclean.
    pose proof (initStateFile_handle _ _ _ _ _ Hinit) as Hfout.
    unfold NewFilterManager. rewrite Hinit.
    destruct (cleanStates E order m hp) as [[[err|] m'] h']; simpl in Hclean; [|done].
    by injection Hclean as ->.
Qed.

(** A state file that cannot be decoded: the handle 3 was opened and no call
    is made on it. *)
Lemma NewFilterManager_failure_handle_witness :
  (initStateFile diskWithState stateFileCorrupt "/var/state").1.1 = Some 3%nat
  ∧ ∃ err, NewFilterManager diskWithState stateFileCorrupt [] "/var/state"
           = ([], inl err).
Proof.
  apply (proj1 (NewFilterManager_failure_handle diskWithState stateFileCorrupt []
                  "/var/state") 64 3%nat); try reflexivity.
  simpl. split; [lia|]. by eexists.
Defined.

(** What the decoder leaves: the entry of index [i] gets the cell [n + i]
    holding its offset; no other key is added, no earlier cell changes. *)
Lemma loadStates_spec l :
  ∀ n m h,
  NoDup l.*1 →
  ∃ m' h',
    loadStates l n m h = (m', h', (n + length l)%nat)
    ∧ (∀ i k z, l !! i = Some (k, z) →
         m' !! k = Some (Some (n + i)%nat) ∧ h' !! (n + i)%nat = Some z)
    ∧ (∀ k, k ∉ l.*1 → m' !! k = m !! k)
    ∧ (∀ c, (c < n)%nat → h' !! c = h !! c).
Proof.
  induction l as [|[k z] l IH]; intros n m h Hnd; simpl.
  { exists m, h. rewrite Nat.add_0_r. by repeat split. }
  apply NoDup_cons in Hnd as [Hk Hnd].
  destruct (IH (Datatypes.S n) (<[k := Some n]> m) (<[n := z]> h) Hnd)
    as (m' & h' & Hrun & Hent & Hkeys & Hcells).
  exists m', h'. split; [rewrite Hrun; f_equal; lia|].
  split; [|split].
  - intros [|i] k' z' Hi; simpl in Hi.
    + injection Hi as <- <-. rewrite Nat.add_0_r.
      rewrite Hkeys, Hcells, !lookup_insert_eq by (done || lia). done.
    + replace (n + Datatypes.S i)%nat with (Datatypes.S n + i)%nat by lia.
      by apply Hent.
  - intros k' Hk'. apply not_elem_of_cons in Hk' as [Hne Hk'].
    rewrite Hkeys by done. by rewrite lookup_insert_ne.
  - intros c Hc. rewrite Hcells by lia. rewrite lookup_insert_ne; [done|lia].
Qed.

(** X25.  Loading then sanitizing: when [NewFilterManager] builds a manager
    from a state file that decodes to the entries [l] (one per key), then
    for every decoded entry (k, z): if the file of k is gone the key is
    absent from the state map; otherwise the key has a cell of its own whose
    value is 0 if the file is now smaller than z, and z if not.  Keys that
    were not decoded are absent. *)
Theorem NewFilterManager_sanitized E S order p sz h size l tr s :
  Stat E p = StatOk sz →
  IsRegular S p = true →
  OpenRW S p = inr h →
  FileSize S h = inr size →
  0 < size →
  Decode S h = inr l →
  NoDup l.*1 →
  (∀ k, k ∈ l.*1 → k ∈ order) →
  NewFilterManager E S order p = (tr, inr s) →
  stateFout s = Some h
  ∧ (∀ k, k ∉ l.*1 → states s !! k = None)
  ∧ ∀ k z, (k, z) ∈ l →
      match Stat E (FilePath k) with
      | StatNotExist => states s !! k = None
      | StatOk fsize =>
        ∃ c, states s !! k = Some (Some c)
             ∧ load s c = (if decide (fsize < z) then 0 else z)
             ∧ ∀ k', states s !! k' = Some (Some c) → k' = k
      | StatErr _ => False
      end.
Proof.
  intros Hs Hreg Hopen Hsize Hpos Hdec Hnd Hcover.
  unfold NewFilterManager, initStateFile.
  rewrite Hs, Hreg, Hopen, Hsize, decide_True, Hdec by done.
  destruct (loadStates_spec l 0 ∅ ∅ Hnd) as (m & hp & -> & Hent & Hkeys & _).
  assert (Hm : ∀ k cp, m !! k = Some cp →
            ∃ i z, l !! i = Some (k, z) ∧ cp = Some i ∧ hp !! i = Some z).
  { intros k cp Hk. destruct (decide (k ∈ l.*1)) as [Hin|Hout].
    - apply list_elem_of_fmap in Hin as ([k' z] & -> & Hin).
      apply list_elem_of_lookup in Hin as [i Hi].
      destruct (Hent i k' z Hi) as [Hmk Hhi]. simpl in Hk, Hmk, Hhi |- *.
      exists i, z. split; [done|]. split; [congruence|done].
    - rewrite Hkeys, lookup_empty in Hk; done. }
  assert (Hsep : separate m).
  { intros k1 k2 c H1 H2.
    destruct (Hm _ _ H1) as (i1 & z1 & Hi1 & [= <-] & _).
    destruct (Hm _ _ H2) as (i2 & z2 & Hi2 & [= <-] & _). congruence. }
  destruct (cleanStates E order m hp) as [[[err|] m'] h'] eqn:Hclean; [done|].
  intros [= <- <-]. simpl. split; [done|].
  assert (Hstat : ∀ k v e, m !! k = Some v → Stat E (FilePath k) ≠ StatErr e).
  { intros k v e Hk Hse.
    apply (cleanStates_hard_error E order m hp k v e); [|done|done|by rewrite Hclean].
    destruct (Hm _ _ Hk) as (i & z & Hi & _). apply Hcover.
    apply list_elem_of_fmap. exists (k, z). split; [done|].
    by apply list_elem_of_lookup_2 in Hi. }
  destruct (cleanStates_pass E order m hp Hstat) as (m2 & h2 & Hrun & Ha & Hb & Hc & Hd).
  rewrite Hclean in Hrun. injection Hrun as <- <-.
  split.
  { intros k Hk. rewrite Ha, Hkeys, lookup_empty by done. by case_decide. }
  intros k z Hin.
  assert (Hko : k ∈ order).
  { apply Hcover. apply list_elem_of_fmap. by exists (k, z). }
  apply list_elem_of_lookup in Hin as [i Hi].
  destruct (Hent i k z Hi) as [Hmk Hhi]. simpl in Hmk, Hhi.
  assert (Hrd : rd hp i = z) by (unfold rd; by rewrite Hhi).
  destruct (Stat E (FilePath k)) as [fsize| |e] eqn:Hsk.
  - exists i. split; [|split].
    + rewrite Ha, decide_False; [done|]. intros [_ ?]; congruence.
    + change (rd h' i = if decide (fsize < z) then 0 else z). case_decide as Hlt.
      * apply (Hd k i fsize); try done. by rewrite Hrd.
      * destruct (decide (rd h' i = rd hp i)) as [Heq|Hne]; [by rewrite Heq|].
        destruct (Hc i Hne) as (k' & size' & _ & Hk' & Hs' & Hlt').
        rewrite (Hsep k' k i Hk' Hmk) in Hs'. rewrite Hrd in Hlt'. congruence.
    + intros k' Hk'. rewrite Ha in Hk'. case_decide; [done|].
      by apply (Hsep k' k i).
  - rewrite Ha, decide_True; done.
  - by apply (Hstat k (Some i) e).
Qed.

Lemma NewFilterManager_sanitized_witness :
  ∃ s, NewFilterManager diskWithState stateFileOk loadedKeys "/var/state"
       = ([], inr s)
    ∧ stateFout s = Some 3%nat
    ∧ (∀ k, k ∉ savedOffsets.*1 → states s !! k = None)
    ∧ ∀ k z, (k, z) ∈ savedOffsets →
        match Stat diskWithState (FilePath k) with
        | StatNotExist => states s !! k = None
        | StatOk fsize =>
          ∃ c, states s !! k = Some (Some c)
               ∧ load s c = (if decide (fsize < z) then 0 else z)
               ∧ ∀ k', states s !! k' = Some (Some c) → k' = k
        | StatErr _ => False
        end.
Proof.
  eexists. split; [vm_compute; reflexivity|].
  apply (NewFilterManager_sanitized diskWithState stateFileOk loadedKeys
           "/var/state" 64 3%nat 64 savedOffsets []); try reflexivity.
  - vm_compute. repeat constructor; set_solver.
  - intros k Hk. vm_compute in Hk. set_solver.
Defined.

(** ** The registry and the store handle are left alone *)

Lemma addFollower_frame E bn fpath si fid h s r s' :
  addFollower E bn fpath si fid h s = Ret r s' →
  filters s' = filters s ∧ stateFout s' = stateFout s.
Proof.
  unfold addFollower. destruct (getFileIdFromName E fpath) as [err|id] eqn:Hid.
  { by intros [= <- <-]. }
  set (occ := match fl_lookup s _ with Some _ => _ | None => _ end).
  assert (Hocc : filters occ.2 = filters s ∧ stateFout occ.2 = stateFout s).
  { unfold occ. destruct (fl_lookup s _) as [flw|]; [|done]. by case_decide. }
  destruct occ as [[err|] s1]; simpl in Hocc.
  { by intros [= <- <-]. }
  unfold NewFollower_ctor. destruct (New_err E _).
  { by intros [= <- <-]. }
  rewrite Hid. unfold follower_Start, follower_Close, fl_insert. simpl.
  destruct (Start_err E _).
  { by intros [= <- <-]. }
  destruct (followers s1); [|done]. by intros [= <- <-].
Qed.

Lemma launchLoop_frame E fpath fname fdir del fs :
  ∀ i s r s',
  launchLoop E fs i fpath fname fdir del s = Ret r s' →
  filters s' = filters s ∧ stateFout s' = stateFout s.
Proof.
  induction fs as [|v fs IH]; intros i s r s'; simpl.
  { by intros [= <- <-]. }
  destruct (negb _ || negb _); [apply IH|].
  set (si := if del then None else seekInfo (bname v) fpath s).
  set (c := match si with None => addSeekInfo (bname v) fpath s | Some _ => (si, s) end).
  assert (Hc : filters c.2 = filters s ∧ stateFout c.2 = stateFout s).
  { unfold c. by destruct si. }
  destruct c as [si' s1]. simpl in Hc.
  destruct (addFollower E (bname v) fpath si' i (lh v) s1) as [[err|] s2|] eqn:Hadd;
    [| |done].
  - intros [= <- <-]. destruct (addFollower_frame _ _ _ _ _ _ _ _ _ Hadd) as [-> ->].
    done.
  - intros Hrest. destruct (IH _ _ _ _ Hrest) as [-> ->].
    destruct (addFollower_frame _ _ _ _ _ _ _ _ _ Hadd) as [-> ->]. done.
Qed.

Lemma checkRename_loop_frame E fpath id order :
  ∀ b s r s',
  checkRename_loop E order fpath id b s = Ret r s' →
  filters s' = filters s ∧ stateFout s' = stateFout s.
Proof.
  induction order as [|k order IH]; intros b s r s'; simpl.
  { by intros [= <- <-]. }
  destruct (fl_lookup s k) as [v|] eqn:Hk; [|by apply IH].
  case_decide; [|by apply IH].
  destruct (checkRename_hit E k v fpath b s) as [[[stop b'] err] s1|] eqn:Hhit; [|done].
  destruct (checkRename_hit_shapes _ _ _ _ _ _ _ _ Hk Hhit) as (Hf & _ & _ & Ho & _).
  destruct stop.
  - by intros [= <- <-].
  - intros Hrest. destruct (IH _ _ _ _ Hrest) as [-> ->]. done.
Qed.

Lemma launchFollowers_frame E order fpath del s r s' :
  launchFollowers E order fpath del s = Ret r s' →
  filters s' = filters s ∧ stateFout s' = stateFout s.
Proof.
  unfold launchFollowers, checkRename.
  destruct (getFileIdFromName E fpath) as [err|id].
  { by intros [= <- <-]. }
  destruct (checkRename_loop E order fpath id false s) as [[isR err] s1|] eqn:Hcr; [|done].
  destruct (checkRename_loop_frame _ _ _ _ _ _ _ _ Hcr) as [Hf Ho].
  destruct err as [err|].
  { destruct isR; intros [= <- <-]; done. }
  destruct isR.
  { by intros [= <- <-]. }
  intros Hrest. destruct (launchLoop_frame _ _ _ _ _ _ _ _ _ _ Hrest) as [-> ->].
  done.
Qed.

Lemma renameLoop_frame E fpath id fs :
  ∀ i s r s',
  renameLoop E fs i fpath id s = Ret r s' →
  filters s' = filters s ∧ stateFout s' = stateFout s.
Proof.
  induction fs as [|v fs IH]; intros i s r s'; simpl.
  { unfold nolockRemoveFollower.
    destruct (removeLoop_frame E fpath (filters s) s) as (Hf & _ & _ & Ho).
    destruct (removeLoop E (filters s) fpath s). by intros [= <- <-]. }
  destruct (fl_lookup s _) as [flw|] eqn:Hk; [|apply IH].
  destruct (findFileId E (loc v) (mtchs v) id) as [[p ok] [err|]].
  { destruct ok; by intros [= <- <-]. }
  destruct ok; [|apply IH].
  case_decide.
  { by intros [= <- <-]. }
  case_decide.
  - simpl. destruct (states s !! _) as [st|].
    + unfold fl_insert. simpl. destruct (followers s); [|done]. by intros [= <- <-].
    + by intros [= <- <-].
  - destruct (states s !! _) as [st|].
    + unfold follower_Close. destruct (Close_err E flw).
      { by intros [= <- <-]. }
      destruct st as [c|]; [|done].
      intros Hadd. by destruct (addFollower_frame _ _ _ _ _ _ _ _ _ Hadd) as [-> ->].
    + by intros [= <- <-].
Qed.

(** X26.  The filter registry and the store handle change only through
    [AddFilter] and [Close]: whatever [RemoveFollower], [RenameFollower],
    [NewFollower] and [LoadFile] return, the registry afterwards is the one
    before, filter for filter, so the filter ids recorded by followers keep
    denoting the same filters, and the store handle is the same. *)
Theorem registry_untouched E order fpath s :
  (filters (RemoveFollower E fpath s).2 = filters s
   ∧ stateFout (RemoveFollower E fpath s).2 = stateFout s)
  ∧ (∀ r s', RenameFollower E order fpath s = Ret r s' →
       filters s' = filters s ∧ stateFout s' = stateFout s)
  ∧ (∀ r s', NewFollower E order fpath s = Ret r s' →
       filters s' = filters s ∧ stateFout s' = stateFout s)
  ∧ (∀ r s', LoadFile E order fpath s = Ret r s' →
       filters s' = filters s ∧ stateFout s' = stateFout s).
Proof.
  split; [|split; [|split]].
  - unfold RemoveFollower, nolockRemoveFollower.
    by destruct (removeLoop_frame E fpath (filters s) s) as (-> & _ & _ & ->).
  - intros r s'. unfold RenameFollower.
    destruct (findId order fpath s None); [apply renameLoop_frame|].
    by intros [= <- <-].
  - intros r s'. apply launchFollowers_frame.
  - intros r s'. apply launchFollowers_frame.
Qed.

(** ** Entries created while the follower table is ranged over *)

Lemma checkRename_hit_moves E k v fpath b s flt :
  fl_lookup s k = Some v →
  index (filters s) (filterId (getf s v)) = Some flt →
  loc flt ≠ Dir E fpath ∨ matchFile E (mtchs flt) (Base E fpath) = false →
  checkRename_hit E k v fpath b s = Ret (false, true, None) (moved k v fpath s).
Proof.
  intros Hk Hidx Hno.
  assert (Hrange : bool_decide (Z.of_nat (length (filters s)) <= filterId (getf s v))
                   || bool_decide (filterId (getf s v) < 0) = false).
  { apply index_Some in Hidx as [H0 Hl]. apply lookup_lt_Some in Hl.
    rewrite bool_decide_eq_false_2, bool_decide_eq_false_2; [done| lia | lia]. }
  assert (Hcond : negb (bool_decide (loc flt = Dir E fpath))
            || negb (matchFile E (mtchs flt) (Base E fpath)) = true).
  { destruct Hno as [Hl | ->]; [|by rewrite orb_true_r].
    by rewrite bool_decide_eq_false_2. }
  unfold checkRename_hit. rewrite Hidx, Hcond, Hrange.
  unfold fl_lookup in Hk. destruct (followers s) as [m|] eqn:Hm; [|done].
  unfold fl_insert, moved. simpl. rewrite Hm. simpl.
  unfold getf. simpl. by rewrite lookup_insert_eq.
Qed.

Lemma moved_again k v fpath s :
  moved (mkFileName (BaseName k) fpath) v fpath (moved k v fpath s)
  = moved k v fpath s.
Proof.
  unfold moved, getf. simpl. rewrite !lookup_insert_eq. simpl.
  rewrite !delete_insert_eq, !insert_delete_eq, !insert_insert_eq. done.
Qed.

(** X27.  The entry that [checkRename] creates when it moves a follower may
    or may not be visited by the same loop.  It makes no difference: when
    the loop visits the new key right after the move, the result and every
    table, object, cell and call are the same as when it does not. *)
Theorem checkRename_revisit E pre k v fpath id s flt :
  (∀ k' v', k' ∈ pre → fl_lookup s k' = Some v' → fileId (getf s v') ≠ id) →
  fl_lookup s k = Some v →
  fileId (getf s v) = id →
  index (filters s) (filterId (getf s v)) = Some flt →
  loc flt ≠ Dir E fpath ∨ matchFile E (mtchs flt) (Base E fpath) = false →
  checkRename E (pre ++ [k; mkFileName (BaseName k) fpath]) fpath id s
  = checkRename E (pre ++ [k]) fpath id s.
Proof.
  intros Hpre Hk Hid Hidx Hno. unfold checkRename.
  rewrite !checkRename_loop_skip by done. simpl.
  rewrite Hk, decide_True by done.
  rewrite (checkRename_hit_moves E k v fpath false s flt) by done.
  set (k' := mkFileName (BaseName k) fpath).
  assert (Hk1 : fl_lookup (moved k v fpath s) k' = Some v).
  { unfold fl_lookup, moved. simpl. apply lookup_insert_eq. }
  assert (Hv1 : getf (moved k v fpath s) v
                = mkFollower (mkFileName (BaseName (fileName (getf s v))) fpath)
                    (fileId (getf s v)) (filterId (getf s v)) (state (getf s v))).
  { unfold getf, moved. simpl. by rewrite lookup_insert_eq. }
  rewrite Hk1, decide_True by (by rewrite Hv1).
  rewrite (checkRename_hit_moves E k' v fpath true (moved k v fpath s) flt);
    [|done|by rewrite Hv1|done].
  unfold k'. by rewrite moved_again, decide_True.
Qed.

Lemma checkRename_revisit_witness :
  checkRename (world [("/logs/a.txt", (7%nat, 5000))] [] (inr 0))
    ([] ++ [key "app" "/logs/a.log"; mkFileName "app" "/logs/a.txt"])
    "/logs/a.txt" 7%nat oneFollower
  = checkRename (world [("/logs/a.txt", (7%nat, 5000))] [] (inr 0))
      ([] ++ [key "app" "/logs/a.log"]) "/logs/a.txt" 7%nat oneFollower.
Proof.
  apply (checkRename_revisit (world [("/logs/a.txt", (7%nat, 5000))] [] (inr 0))
           [] (key "app" "/logs/a.log") 0%nat "/logs/a.txt" 7%nat oneFollower
           appLogs); try (vm_compute; reflexivity).
  - intros k' v' Hin. by apply elem_of_nil in Hin.
  - right. vm_compute. reflexivity.
Defined.

(** ** A path that several filters match *)








(** ** Filter ids are indices of the registry *)

















